(** * deep-logic-timer: countdown console, status log and scene animator

    A shallow embedding of the TypeScript sources

    - [types.ts]                    ([TimerStatus], [RobotMessage])
    - [services/celestialData.ts]   (reference table, [formatOrbitalPeriod],
                                     [orbitsCompleted])
    - [services/geminiService.ts]   ([getRoboticStatus]) and the older copy
                                     of that file with a module-scope client
    - [App.tsx]                     (timer state, log, the two interval
                                     effects, [toggleTimer], [resetTimer])
    - [components/ThreeScene.tsx]   (the [animate] loop)

    followed by the properties of the specification that concern them.

    Conventions.  JavaScript integers ([timeLeft], timestamps, elapsed
    milliseconds) are [Z].  Other JavaScript numbers are exact rationals
    [Q] where only their order and their algebra matter; the animation
    loop and [orbitsCompleted] are given a second time over the doubles
    of the program ([Binary64]), where every operation rounds, for the
    properties that depend on the last bit.  Strings are [string].
    [Date.now()], the outcome of the remote call, the outcome of the
    client constructor, [Math.random()] and [Math.sin] are inputs of the
    model. *)

From Stdlib Require Import ZArith QArith Qround Qabs List String Ascii Bool Lia Lqa.
From Stdlib Require Import DecimalString.
From Stdlib Require Import Sorted.
From Stdlib Require Floats.
Import ListNotations.

Open Scope string_scope.
Open Scope Z_scope.

(* ================================================================== *)
(** * JavaScript runtime helpers *)
(* ================================================================== *)

Module JS.

(** The double quote and the line feed, as one-character strings. *)
Definition dquote : string := String (ascii_of_nat 34) EmptyString.
Definition LF : string := String (ascii_of_nat 10) EmptyString.

(** [String(n)] for an integer [n]. *)
Definition Z_toString (n : Z) : string :=
  NilZero.string_of_int (Z.to_int n).

(** [s.padStart(width, '0')]. *)
Fixpoint zeros (n : nat) : string :=
  match n with
  | O => EmptyString
  | S k => String "0" (zeros k)
  end.

Definition padStart0 (width : nat) (s : string) : string :=
  zeros (width - String.length s) ++ s.

(** [x.toFixed(f)]: the integer [n] for which [n / 10^f - x] is closest to
    zero, the larger one on a tie, printed with [f] decimals; a negative
    [x] is printed as ["-"] followed by the digits of [-x].  (For
    [|x| >= 1e21] JavaScript switches to exponent notation; the model
    prints digits throughout.) *)
Definition toFixed (x : Q) (f : nat) : string :=
  let scale := 10 ^ Z.of_nat f in
  let n := Qfloor (Qabs x * inject_Z scale + (1 # 2)) in
  let sign := if Qlt_le_dec x 0 then "-" else EmptyString in
  let whole := Z_toString (n / scale) in
  match f with
  | O => sign ++ whole
  | _ => sign ++ whole ++ "." ++ padStart0 f (Z_toString (n mod scale))
  end.

(** The least [d <= fuel] for which [x * 10^d] is an integer. *)
Fixpoint decimals (fuel : nat) (d : nat) (x : Q) : nat :=
  match fuel with
  | O => d
  | S k =>
      if Qeq_bool (inject_Z (Qfloor (x * inject_Z (10 ^ Z.of_nat d))))
                  (x * inject_Z (10 ^ Z.of_nat d))
      then d
      else decimals k (S d) x
  end.

(** [String(x)] (template interpolation) for a number written as a short
    decimal literal: the literal is printed back without trailing
    zeros. *)
Definition Number_toString (x : Q) : string :=
  toFixed x (decimals 20 0 x).

(** [s.endsWith(suffix)]. *)
Definition endsWith (s suffix : string) : bool :=
  let n := String.length s in
  let k := String.length suffix in
  (k <=? n)%nat && String.eqb (substring (n - k) k s) suffix.

(** [xs.join(sep)]. *)
Fixpoint join (sep : string) (xs : list string) : string :=
  match xs with
  | [] => EmptyString
  | [x] => x
  | x :: rest => x ++ sep ++ join sep rest
  end.

(** [Math.round(x)]: the nearest integer, the larger one on a tie. *)
Definition Math_round (x : Q) : Z := Qfloor (x + (1 # 2)).

(** The settlement of a promise. *)
Inductive Settled (A : Type) : Type :=
| Fulfilled (value : A)
| Rejected (reason : string).
Arguments Fulfilled {A} value.
Arguments Rejected {A} reason.

End JS.

(* ================================================================== *)
(** * types.ts *)
(* ================================================================== *)

(** [RobotMessage['type']]: ['status' | 'warning' | 'alert' | 'info']. *)
Inductive MessageType : Type :=
| msg_status
| msg_warning
| msg_alert
| msg_info.

Record RobotMessage : Type := mkRobotMessage {
  text : string;
  type : MessageType;
  timestamp : Z
}.

Inductive TimerStatus : Type :=
| IDLE
| RUNNING
| PAUSED
| COMPLETED.

Definition MessageType_eqb (a b : MessageType) : bool :=
  match a, b with
  | msg_status, msg_status | msg_warning, msg_warning
  | msg_alert, msg_alert | msg_info, msg_info => true
  | _, _ => false
  end.

Definition TimerStatus_eqb (a b : TimerStatus) : bool :=
  match a, b with
  | IDLE, IDLE | RUNNING, RUNNING | PAUSED, PAUSED | COMPLETED, COMPLETED => true
  | _, _ => false
  end.

(* ================================================================== *)
(** * services/celestialData.ts *)
(* ================================================================== *)

Inductive BodyType : Type :=
| moon
| planet
| comet.

Definition BodyType_eqb (a b : BodyType) : bool :=
  match a, b with
  | moon, moon | planet, planet | comet, comet => true
  | _, _ => false
  end.

Record CelestialBody : Type := mkCelestialBody {
  name : string;
  body_type : BodyType;
  parent : option string;
  orbitalPeriodHours : Q;
  visualDurationSeconds : Z;
  color : string;
  tilt : string;
  size : Z;
  description : string;
  nasaMission : string
}.

Definition CELESTIAL_BODIES : list CelestialBody :=
  [ mkCelestialBody "Phobos" moon (Some "Mars") 7.654%Q 8
      "border-cyan-500/20" "rotateX(70deg)" 300
      "Mars' inner moon — fastest natural satellite in the solar system"
      "Mars Reconnaissance Orbiter";
    mkCelestialBody "Amalthea" moon (Some "Jupiter") 11.957%Q 13
      "border-purple-500/20" "rotateY(45deg)" 450
      "Jupiter's innermost large moon"
      "Juno";
    mkCelestialBody "Io" moon (Some "Jupiter") 42.459%Q 44
      "border-cyan-400/10" "rotateX(20deg)" 600
      "Most volcanically active body in the solar system"
      "Galileo / Juno";
    mkCelestialBody "Europa" moon (Some "Jupiter") 85.228%Q 89
      "border-pink-500/10" "rotateY(-60deg)" 750
      "Subsurface ocean world — Europa Clipper mission target (2030)"
      "Europa Clipper";
    mkCelestialBody "Moon" moon (Some "Earth") 655.72%Q 120
      "border-blue-500/5" "rotateZ(10deg)" 900
      "Earth's natural satellite — Lunar Reconnaissance Orbiter"
      "Lunar Reconnaissance Orbiter";
    mkCelestialBody "Mercury" planet None 2111.28%Q 150
      "border-white/5" "rotateX(-45deg)" 1100
      "Fastest-orbiting planet — MESSENGER mission"
      "MESSENGER" ].

Record Spacecraft : Type := mkSpacecraft {
  craft_name : string;
  distanceAU : Q;
  speedKmS : Q;
  launched : Z
}.

Definition NASA_SPACECRAFT : list Spacecraft :=
  [ mkSpacecraft "Voyager 1" 163.7%Q 17.0%Q 1977;
    mkSpacecraft "Voyager 2" 136.5%Q 15.3%Q 1977;
    mkSpacecraft "New Horizons" 58.1%Q 14.0%Q 2006;
    mkSpacecraft "Parker Solar Probe" 0.05%Q 195.0%Q 2018 ].

Record Comet : Type := mkComet {
  comet_name : string;
  periodYears : Q;
  lastPerihelion : Z;
  nextPerihelion : Z
}.

Definition NOTABLE_COMETS : list Comet :=
  [ mkComet "Halley's Comet" 75.3%Q 1986 2061;
    mkComet "Comet Encke" 3.3%Q 2023 2026;
    mkComet "Wild 2" 6.41%Q 2022 2028 ].

(** Format an orbital period in hours as a human-readable string. *)
Definition formatOrbitalPeriod (hours : Q) : string :=
  if Qlt_le_dec hours 24 then JS.toFixed hours 2 ++ "h"
  else if Qlt_le_dec hours (24 * 365) then JS.toFixed (hours / 24) 2 ++ "d"
  else JS.toFixed (hours / (24 * 365.25)) 2 ++ "yr".

(** How many orbits a body finishes in a number of seconds of countdown. *)
Definition orbitsCompleted (body : CelestialBody) (elapsedSeconds : Q) : Q :=
  (elapsedSeconds / (orbitalPeriodHours body * 3600))%Q.

(* ================================================================== *)
(** * The generative-text client (external collaborator) *)
(* ================================================================== *)

Module GenAI.

Record GenerateContentParameters : Type := mkRequest {
  model : string;
  contents : string;
  maxOutputTokens : Z;
  temperature : Q
}.

(** [response.text] may be undefined. *)
Record GenerateContentResponse : Type := mkResponse {
  response_text : option string
}.

(** What the function under test reads from its surroundings:
    [process.env.API_KEY], how the remote call settles for a request, and
    the next value of [Math.random()]. *)
Record Env : Type := mkEnv {
  API_KEY : option string;
  generateContent : GenerateContentParameters -> JS.Settled GenerateContentResponse;
  Math_random : Q
}.

(** What the function does to its surroundings, in order. *)
Inductive Effect : Type :=
| console_warn (message : string)
| console_error (message : string) (error : string)
| network_call (request : GenerateContentParameters).

Definition is_network_call (e : Effect) : bool :=
  match e with
  | network_call _ => true
  | _ => false
  end.

(** Truthiness of an optional string: defined and not empty. *)
Definition truthy (s : option string) : bool :=
  match s with
  | Some (String _ _) => true
  | _ => false
  end.

(** [s || fallback]. *)
Definition or_else (s : option string) (fallback : string) : string :=
  match s with
  | Some (String c rest) => String c rest
  | _ => fallback
  end.

End GenAI.

(* ================================================================== *)
(** * services/geminiService.ts *)
(* ================================================================== *)

Module GeminiService.
Import GenAI.

Definition indent : string := JS.LF ++ "      ".

Definition quoted (s : string) : string := JS.dquote ++ s ++ JS.dquote.

Definition moonData : string :=
  JS.join "; "
    (map (fun b =>
            name b ++ " (" ++
            match parent b with Some p => p | None => "undefined" end ++
            ") T=" ++ formatOrbitalPeriod (orbitalPeriodHours b) ++
            " via " ++ nasaMission b)
         (filter (fun b => BodyType_eqb (body_type b) moon) CELESTIAL_BODIES)).

Definition cometData : string :=
  JS.join "; "
    (map (fun c =>
            comet_name c ++ " period=" ++ JS.Number_toString (periodYears c) ++
            "yr next perihelion=" ++ JS.Z_toString (nextPerihelion c))
         NOTABLE_COMETS).

Definition prompt (minutes seconds : Z) (voyager : Spacecraft) : string :=
  "You are an advanced NASA mission control computer using real JPL Horizons ephemeris data."
  ++ indent ++
  "Generate a short, one-sentence cryptic status update for a countdown timer, grounded in real celestial mechanics."
  ++ indent ++
  "Time remaining: " ++ JS.Z_toString minutes ++ "m " ++ JS.Z_toString seconds ++ "s."
  ++ indent ++
  "Real moon orbital periods (NASA data): " ++ moonData ++ "."
  ++ indent ++
  "Notable comets: " ++ cometData ++ "."
  ++ indent ++
  craft_name voyager ++ " is currently " ++ JS.Number_toString (distanceAU voyager)
  ++ " AU from the Sun at " ++ JS.Number_toString (speedKmS voyager) ++ " km/s."
  ++ indent ++
  "Reference real bodies (Phobos, Io, Europa, Halley's Comet, Voyager, Parker Solar Probe, etc.)."
  ++ indent ++
  "Examples: " ++ quoted "Phobos completes 0.011 orbits in this interval." ++ ", "
  ++ quoted "Halley's Comet last reached perihelion in 1986." ++ ", "
  ++ quoted ("Voyager 1 is " ++ JS.Number_toString (distanceAU voyager)
             ++ " AU distant, moving at " ++ JS.Number_toString (speedKmS voyager)
             ++ " km/s.")
  ++ indent ++
  "Be precise, robotic, and reference real NASA mission data.".

(** The promise returned by [getRoboticStatus(timeLeft)] as it settles,
    with the effects performed on the way.  The client object is built
    with a key that is present; building it performs no call. *)
Definition getRoboticStatus (env : Env) (timeLeft : Z)
  : JS.Settled string * list Effect :=
  let apiKey := API_KEY env in
  if negb (truthy apiKey) then
    (JS.Fulfilled "Core connection lost.",
     [console_warn "API_KEY is not defined in process.env"])
  else
    (* try *)
    let minutes := timeLeft / 60 in
    let seconds := Z.rem timeLeft 60 in
    match NASA_SPACECRAFT with
    | [] =>
        (* reading a field of [undefined] throws inside the [try] *)
        (JS.Fulfilled "Offline protocol engaged.",
         [console_error "Gemini Error:" "TypeError"])
    | voyager :: _ =>
        let request :=
          mkRequest "gemini-3-flash-preview" (prompt minutes seconds voyager)
                    60 0.8%Q in
        match generateContent env request with
        | JS.Fulfilled response =>
            (JS.Fulfilled (or_else (response_text response) "Systems nominal."),
             [network_call request])
        | JS.Rejected error =>
            (* catch (error) *)
            (JS.Fulfilled "Offline protocol engaged.",
             [network_call request; console_error "Gemini Error:" error])
        end
    end.

End GeminiService.

(** The older copy of the service file: the client is built once at module
    scope from [process.env.API_KEY], whatever it holds, and the function
    has no credential test of its own. *)
Module LegacyGeminiService.
Import GenAI.

Definition indent : string := JS.LF ++ "      ".

Definition quoted (s : string) : string := JS.dquote ++ s ++ JS.dquote.

Definition prompt (minutes seconds cycle : Z) : string :=
  "You are a sophisticated tactical robot computer. "
  ++ indent ++
  "Generate a short, one-sentence cryptic status update for a countdown. "
  ++ indent ++
  "Time remaining: " ++ JS.Z_toString minutes ++ "m " ++ JS.Z_toString seconds ++ "s. "
  ++ indent ++
  "Examples: " ++ quoted "Core integrity at 88%." ++ ", "
  ++ quoted "Quantum flux stabilizing." ++ ", "
  ++ quoted "Analyzing efficiency vectors." ++ ", "
  ++ quoted ("Deep logic cycle " ++ JS.Z_toString cycle ++ " initiated.")
  ++ indent ++
  "Be robotic, precise, and slightly mysterious.".

(** [const ai = new GoogleGenAI({ apiKey: process.env.API_KEY })], run once
    when the module is imported.  What the constructor does with the key
    it is handed belongs to the library: [construct] gives its outcome, a
    client or the error it throws (the browser build of the library throws
    when there is no key). *)
Definition ai (construct : option string -> JS.Settled unit) (env : Env)
  : JS.Settled unit :=
  construct (API_KEY env).

(** The exported function.  When the statement at module scope throws,
    the import fails and there is no function to call: [None]. *)
Definition getRoboticStatus (construct : option string -> JS.Settled unit)
           (env : Env) (timeLeft : Z)
  : option (JS.Settled string * list Effect) :=
  match ai construct env with
  | JS.Rejected _ => None
  | JS.Fulfilled _ =>
      (* try *)
      let minutes := timeLeft / 60 in
      let seconds := Z.rem timeLeft 60 in
      let request :=
        mkRequest "gemini-3-flash-preview"
                  (prompt minutes seconds
                          (Qfloor (Math_random env * inject_Z 1000)))
                  50 0.9%Q in
      match generateContent env request with
      | JS.Fulfilled response =>
          Some (JS.Fulfilled (or_else (response_text response) "Systems nominal."),
                [network_call request])
      | JS.Rejected error =>
          (* catch (error) *)
          Some (JS.Fulfilled "Offline protocol engaged.",
                [network_call request; console_error "Gemini Error:" error])
      end
  end.

End LegacyGeminiService.

(* ================================================================== *)
(** * App.tsx *)
(* ================================================================== *)

Module App.

Definition INITIAL_TIME : Z := 5 * 60.

(** The [useState] cells of the component that the timer logic reads and
    writes. *)
Record State : Type := mkState {
  timeLeft : Z;
  status : TimerStatus;
  messages : list RobotMessage
}.

Definition initial : State := mkState INITIAL_TIME IDLE [].

(** [addMessage(text, type = 'info')], as the update it applies to
    [messages]: [prev => [newMessage, ...prev].slice(0, 10)].  [now] is
    the value of [Date.now()]. *)
Definition addMessage (now : Z) (text : string) (type : option MessageType)
                      (prev : list RobotMessage) : list RobotMessage :=
  let newMessage :=
    mkRobotMessage text
                   (match type with Some t => t | None => msg_info end)
                   now in
  firstn 10 (newMessage :: prev).

(** The text logged on completion.  Both tables are constants with a
    first entry. *)
Definition completionText : string :=
  match CELESTIAL_BODIES, NOTABLE_COMETS with
  | phobos :: _, halley :: _ =>
      "PHOBOS COMPLETES ONE ORBIT IN "
      ++ JS.toFixed (orbitalPeriodHours phobos) 2
      ++ "H. SESSION ELAPSED. NEXT: HALLEY'S COMET "
      ++ JS.Z_toString (nextPerihelion halley) ++ "."
  | _, _ => EmptyString
  end.

(** The callback of the one-second interval:
    [setTimeLeft(prev => ...)] with the updates it makes on the way. *)
Definition onTick (now : Z) (s : State) : State :=
  let prev := timeLeft s in
  if prev <=? 1 then
    mkState 0 COMPLETED
            (addMessage now completionText (Some msg_alert) (messages s))
  else
    mkState (prev - 1) (status s) (messages s).

(** The condition under which the timer effect installs that interval. *)
Definition ticking (s : State) : bool :=
  TimerStatus_eqb (status s) RUNNING && (0 <? timeLeft s).

(** One period of the one-second interval: the callback runs when the
    interval exists, and nothing happens when it does not. *)
Definition tick (now : Z) (s : State) : State :=
  if ticking s then onTick now s else s.

Definition toggleTimer (now : Z) (s : State) : State :=
  if TimerStatus_eqb (status s) RUNNING then
    mkState (timeLeft s) PAUSED
            (addMessage now "TEMPORAL DISPLACEMENT FROZEN." (Some msg_warning)
                        (messages s))
  else
    mkState (timeLeft s) RUNNING
            (addMessage now "INITIATING ALIEN LOGIC SEQUENCE." (Some msg_info)
                        (messages s)).

Definition resetTimer (now : Z) (s : State) : State :=
  mkState INITIAL_TIME IDLE
          (addMessage now "CALIBRATING INTERSTELLAR COORDINATES..."
                      (Some msg_info) (messages s)).

(** The operations of the timer state machine, each with the value of
    [Date.now()] at the time. *)
Inductive Action : Type :=
| do_toggle (now : Z)
| do_reset (now : Z)
| do_tick (now : Z).

Definition apply (a : Action) (s : State) : State :=
  match a with
  | do_toggle now => toggleTimer now s
  | do_reset now => resetTimer now s
  | do_tick now => tick now s
  end.

Definition run (actions : list Action) (s : State) : State :=
  fold_left (fun acc a => apply a acc) actions s.

Definition ticks (nows : list Z) (s : State) : State :=
  fold_left (fun acc now => tick now acc) nows s.

(** A sequence of insertions into the log, oldest first. *)
Definition insertAll (entries : list RobotMessage) (log : list RobotMessage)
  : list RobotMessage :=
  fold_left (fun acc m => addMessage (timestamp m) (text m) (Some (type m)) acc)
            entries log.

(** ** The mounted component: state, intervals and requests in flight *)

(** Time is counted in milliseconds.  [timerRef] is the live one-second
    interval, as the time since it was installed ([None]: no live
    interval); [pollTimer] is the same for the 40-second interval, which
    always exists.  [inFlight] holds the argument of each call of
    [getRoboticStatus] that has not settled yet and [fetchCount] counts
    the calls made so far.  A render and the effects that follow it take
    no time. *)
Record Component : Type := mkComponent {
  state : State;
  timerRef : option Z;
  pollTimer : Z;
  clock : Z;
  inFlight : list Z;
  fetchCount : nat
}.

Definition set_state (s : State) (c : Component) : Component :=
  mkComponent s (timerRef c) (pollTimer c) (clock c) (inFlight c) (fetchCount c).

Definition set_timerRef (r : option Z) (c : Component) : Component :=
  mkComponent (state c) r (pollTimer c) (clock c) (inFlight c) (fetchCount c).

Definition set_pollTimer (p : Z) (c : Component) : Component :=
  mkComponent (state c) (timerRef c) p (clock c) (inFlight c) (fetchCount c).

(** [fetchAIStatus] is a [useCallback] over [status, timeLeft,
    addMessage]; [addMessage] is created once, so a render yields a new
    [fetchAIStatus] when [status] or [timeLeft] has changed. *)
Definition fetchAIStatus_recreated (old new : State) : bool :=
  negb (TimerStatus_eqb (status old) (status new))
  || negb (timeLeft old =? timeLeft new).

(** The poll effect has the dependencies [status, fetchAIStatus]. *)
Definition pollEffect_reruns (old new : State) : bool :=
  negb (TimerStatus_eqb (status old) (status new))
  || fetchAIStatus_recreated old new.

(** The timer effect has the dependencies [status, timeLeft, addMessage]. *)
Definition timerEffect_reruns (old new : State) : bool :=
  negb (TimerStatus_eqb (status old) (status new))
  || negb (timeLeft old =? timeLeft new).

(** The timer effect: its cleanup clears the interval, its body installs
    a new one under the guard and clears otherwise. *)
Definition timerEffect (s : State) : option Z :=
  if ticking s then Some 0 else None.

(** After a render, the effects whose dependencies changed run again:
    cleanup ([clearInterval]), then the body ([setInterval]). *)
Definition commit (old : State) (c : Component) : Component :=
  let new := state c in
  mkComponent new
    (if timerEffect_reruns old new then timerEffect new else timerRef c)
    (if pollEffect_reruns old new then 0 else pollTimer c)
    (clock c) (inFlight c) (fetchCount c).

Definition update (f : State -> State) (c : Component) : Component :=
  commit (state c) (set_state (f (state c)) c).

Definition mount (now : Z) : Component :=
  mkComponent initial (timerEffect initial) 0 now [] 0%nat.

(** [fetchAIStatus()] up to its [await]: the call of the fetcher. *)
Definition fetchAIStatus (c : Component) : Component :=
  if TimerStatus_eqb (status (state c)) RUNNING then
    mkComponent (state c) (timerRef c) (pollTimer c) (clock c)
                (inFlight c ++ [timeLeft (state c)]) (S (fetchCount c))
  else c.

(** The callback of the 40-second interval. *)
Definition onPoll (c : Component) : Component :=
  if TimerStatus_eqb (status (state c)) RUNNING then fetchAIStatus c else c.

(** One millisecond passes.  An interval whose period has elapsed fires
    and starts its next period; the poll interval was created first. *)
Definition elapse (c : Component) : Component :=
  let c1 := mkComponent (state c) (option_map Z.succ (timerRef c))
                        (pollTimer c + 1) (clock c + 1)
                        (inFlight c) (fetchCount c) in
  let c2 := if pollTimer c1 =? 40000
            then onPoll (set_pollTimer 0 c1) else c1 in
  match timerRef c2 with
  | Some e =>
      if e =? 1000
      then update (onTick (clock c2)) (set_timerRef (Some 0) c2)
      else c2
  | None => c2
  end.

(** The [i]-th call in flight settles in surroundings [env]:
    [fetchAIStatus] resumes after its [await] and logs the string; a
    rejection would end [fetchAIStatus] without logging. *)
Definition settle (i : nat) (env : GenAI.Env) (c : Component) : Component :=
  match nth_error (inFlight c) i with
  | None => c
  | Some arg =>
      let rest := (firstn i (inFlight c) ++ skipn (S i) (inFlight c))%list in
      let c' := mkComponent (state c) (timerRef c) (pollTimer c) (clock c)
                            rest (fetchCount c) in
      match fst (GeminiService.getRoboticStatus env arg) with
      | JS.Fulfilled msg =>
          update (fun s => mkState (timeLeft s) (status s)
                                   (addMessage (clock c) msg (Some msg_status)
                                               (messages s))) c'
      | JS.Rejected _ => c'
      end
  end.

Inductive Event : Type :=
| click_toggle
| click_reset
| ms
| settled (i : nat) (env : GenAI.Env).

Definition handle (e : Event) (c : Component) : Component :=
  match e with
  | click_toggle => update (toggleTimer (clock c)) c
  | click_reset => update (resetTimer (clock c)) c
  | ms => elapse c
  | settled i env => settle i env c
  end.

Definition play (events : list Event) (c : Component) : Component :=
  fold_left (fun acc e => handle e acc) events c.

(** [n] milliseconds pass with no other event. *)
Definition idle (n : nat) (c : Component) : Component :=
  Nat.iter n elapse c.

(** [n] seconds pass with no other event. *)
Definition seconds (n : nat) (c : Component) : Component :=
  Nat.iter n (idle 1000) c.

(** The one-second interval exists exactly under the guard of its effect,
    it is younger than its period, and the poll interval was installed
    at the same render. *)
Definition coherent (c : Component) : Prop :=
  0 <= pollTimer c < 40000 /\
  match timerRef c with
  | Some e => ticking (state c) = true /\ 0 <= e < 1000 /\ pollTimer c = e
  | None => ticking (state c) = false
  end.

(** ** Values derived from the state for display *)

Definition formatTime (seconds : Z) : string :=
  let m := seconds / 60 in
  let s := Z.rem seconds 60 in
  JS.padStart0 2 (JS.Z_toString m) ++ ":" ++ JS.padStart0 2 (JS.Z_toString s).

(** The width of the load bar, in percent:
    [(timeLeft / INITIAL_TIME) * 100]. *)
Definition systemLoad (timeLeft : Z) : Q :=
  (inject_Z timeLeft / inject_Z INITIAL_TIME * 100)%Q.

(** The figure shown as vector efficiency:
    [Math.round((timeLeft / INITIAL_TIME) * 100)]. *)
Definition vectorEfficiency (timeLeft : Z) : Z :=
  JS.Math_round (systemLoad timeLeft).

(** Whether the digits get the flicker style:
    [timeLeft < 600 && status === TimerStatus.RUNNING]. *)
Definition flicker (s : State) : bool :=
  (timeLeft s <? 600) && TimerStatus_eqb (status s) RUNNING.

(** The [isRunning] prop handed to the scene. *)
Definition isRunning (s : State) : bool :=
  TimerStatus_eqb (status s) RUNNING.

(** [mousePos]. *)
Record MousePos : Type := mkMousePos {
  x : Q;
  y : Q
}.

(** [handleMouseMove], from the pointer position of the event and the
    size of the window. *)
Definition handleMouseMove (clientX clientY innerWidth innerHeight : Q)
  : MousePos :=
  mkMousePos ((clientX / innerWidth - 0.5) * 60)%Q
             ((clientY / innerHeight - 0.5) * 60)%Q.

(** The angles, in degrees, of
    [rotateX(${-mousePos.y * 0.2}deg) rotateY(${mousePos.x * 0.2}deg)]. *)
Definition consoleRotation (p : MousePos) : Q * Q :=
  ((- y p * 0.2)%Q, (x p * 0.2)%Q).

(** The coordinates shown in the footer. *)
Definition shownCoordinates (p : MousePos) : Z * Z :=
  (JS.Math_round (x p), JS.Math_round (y p)).

(** ** Predicates on the log *)

(** No entry is stamped later than the one before it in the list. *)
Definition newestFirst (log : list RobotMessage) : Prop :=
  StronglySorted (fun a b => timestamp b <= timestamp a) log.

Definition stampedBy (now : Z) (log : list RobotMessage) : Prop :=
  Forall (fun m => timestamp m <= now) log.

End App.

(* ================================================================== *)
(** * components/ThreeScene.tsx: the animation loop *)
(* ================================================================== *)

Module ThreeScene.

(** Animation time-step when the timer is actively running. *)
Definition ANIMATION_SPEED_RUNNING : Q := 0.004%Q.
(** Animation time-step when the timer is idle / paused. *)
Definition ANIMATION_SPEED_IDLE : Q := 0.0008%Q.
(** Scaling factor that maps real orbital periods (hours) to visible
    angular speed. *)
Definition ORBITAL_SPEED_SCALE : Q := 260%Q.

(** What the loop reads and writes: the accumulator [t], the rotation of
    the camera rig and of the core mesh, and [rotation.y] of each orbit
    pivot, in the order of the table. *)
Record Scene : Type := mkScene {
  t : Q;
  cameraRig_rotation_y : Q;
  cameraRig_rotation_x : Q;
  coreMesh_rotation_y : Q;
  coreMesh_rotation_x : Q;
  orbitPivots : list Q
}.

Definition frameDelta (isRunning : bool) : Q :=
  if isRunning then ANIMATION_SPEED_RUNNING else ANIMATION_SPEED_IDLE.

Definition speed (body : CelestialBody) : Q :=
  ((1 / orbitalPeriodHours body) * ORBITAL_SPEED_SCALE)%Q.

(** [bodies.forEach((body, i) => orbitPivots[i].rotation.y += speed * dt)].
    One pivot is created for each body when the scene is built, so the
    two lists have the same length. *)
Fixpoint orbit (bodies : list CelestialBody) (pivots : list Q) (dt : Q)
  : list Q :=
  match bodies, pivots with
  | body :: bodies', y :: pivots' =>
      (y + speed body * dt)%Q :: orbit bodies' pivots' dt
  | _, _ => pivots
  end.

Section Animate.

(** [Math.sin]. *)
Variable Math_sin : Q -> Q.
(** The table the scene is built from and animated over; the component
    uses [CELESTIAL_BODIES]. *)
Variable bodies : list CelestialBody.

(** The scene as the mount effect leaves it before the first frame. *)
Definition built : Scene :=
  mkScene 0 0 0 0 0 (map (fun _ => 0%Q) bodies).

(** One frame; [isRunning] is [isRunningRef.current] as read by this
    frame. *)
Definition animate (isRunning : bool) (s : Scene) : Scene :=
  let dt := frameDelta isRunning in
  let t' := (t s + dt)%Q in
  mkScene t'
          (t' * 0.18)%Q
          (Math_sin (t' * 0.07) * 0.12)%Q
          (coreMesh_rotation_y s + 0.005)%Q
          (coreMesh_rotation_x s + 0.003)%Q
          (orbit bodies (orbitPivots s) dt).

(** A run of frames, given what each frame reads from the flag. *)
Definition frames (flags : list bool) (s : Scene) : Scene :=
  fold_left (fun acc flag => animate flag acc) flags s.

End Animate.

(** The number of frames of a run, as a number. *)
Definition frameCount (flags : list bool) : Q :=
  inject_Z (Z.of_nat (List.length flags)).

(** The accumulated angle of the [i]-th body. *)
Definition angle (i : nat) (s : Scene) : Q := nth i (orbitPivots s) 0%Q.

(** The period of the [i]-th body of a table. *)
Definition period (bodies : list CelestialBody) (i : nat) : Q :=
  match nth_error bodies i with
  | Some body => orbitalPeriodHours body
  | None => 0%Q
  end.

End ThreeScene.

(* ================================================================== *)
(** * components/ThreeScene.tsx: the animation loop, in binary64 *)
(* ================================================================== *)

(** The same loop over the numbers of the program: every constant is the
    double its literal denotes, and every [+], [*] and [/] is the rounded
    operation of binary64. *)
Module Binary64.
Import Floats.

(** An integer as a double (exact below 2^53). *)
Definition of_Z (z : Z) : float :=
  SF2Prim (binary_normalize prec emax z 0 false).

(** The double that a decimal literal denotes.  The literals of these
    files are quotients of two integers below 2^53, and the division of
    two doubles is rounded to the nearest double. *)
Definition number (q : Q) : float :=
  (of_Z (Qnum q) / of_Z (Z.pos (Qden q)))%float.

Definition ANIMATION_SPEED_RUNNING : float :=
  number ThreeScene.ANIMATION_SPEED_RUNNING.
Definition ANIMATION_SPEED_IDLE : float :=
  number ThreeScene.ANIMATION_SPEED_IDLE.
Definition ORBITAL_SPEED_SCALE : float :=
  number ThreeScene.ORBITAL_SPEED_SCALE.

Record Scene : Type := mkScene {
  t : float;
  cameraRig_rotation_y : float;
  cameraRig_rotation_x : float;
  coreMesh_rotation_y : float;
  coreMesh_rotation_x : float;
  orbitPivots : list float
}.

Definition frameDelta (isRunning : bool) : float :=
  if isRunning then ANIMATION_SPEED_RUNNING else ANIMATION_SPEED_IDLE.

(** [body.orbitalPeriodHours]. *)
Definition period (body : CelestialBody) : float :=
  number (orbitalPeriodHours body).

Definition speed (body : CelestialBody) : float :=
  ((1 / period body) * ORBITAL_SPEED_SCALE)%float.

(** [bodies.forEach((body, i) => orbitPivots[i].rotation.y += speed * dt)]. *)
Fixpoint orbit (bodies : list CelestialBody) (pivots : list float) (dt : float)
  : list float :=
  match bodies, pivots with
  | body :: bodies', y :: pivots' =>
      (y + speed body * dt)%float :: orbit bodies' pivots' dt
  | _, _ => pivots
  end.

(** [orbitsCompleted] of services/celestialData.ts. *)
Definition orbitsCompleted (body : CelestialBody) (elapsedSeconds : float)
  : float :=
  (elapsedSeconds / (period body * number 3600))%float.

(** The accumulated angle of the [i]-th body. *)
Definition angle (i : nat) (s : Scene) : float := nth i (orbitPivots s) 0%float.

Section Animate.

(** [Math.sin]. *)
Variable Math_sin : float -> float.
(** The table the scene is built from and animated over. *)
Variable bodies : list CelestialBody.

(** The scene as the mount effect leaves it before the first frame. *)
Definition built : Scene :=
  mkScene 0 0 0 0 0 (map (fun _ => 0%float) bodies).

(** One frame; [isRunning] is [isRunningRef.current] as read by this
    frame. *)
Definition animate (isRunning : bool) (s : Scene) : Scene :=
  let dt := frameDelta isRunning in
  let t' := (t s + dt)%float in
  mkScene t'
          (t' * number 0.18)%float
          (Math_sin (t' * number 0.07) * number 0.12)%float
          (coreMesh_rotation_y s + number 0.005)%float
          (coreMesh_rotation_x s + number 0.003)%float
          (orbit bodies (orbitPivots s) dt).

(** A run of frames, given what each frame reads from the flag. *)
Definition frames (flags : list bool) (s : Scene) : Scene :=
  fold_left (fun acc flag => animate flag acc) flags s.

(** The angle of the [i]-th body after each frame of a run. *)
Fixpoint angles (i : nat) (flags : list bool) (s : Scene) : list float :=
  match flags with
  | [] => []
  | flag :: flags' =>
      angle i (animate flag s) :: angles i flags' (animate flag s)
  end.

End Animate.

(** Twice a double that is zero or finite and not subnormal: the same sign
    and mantissa in the next binade, or infinity when there is none. *)
Definition doubled (x : spec_float) : spec_float :=
  match x with
  | S754_finite s m e =>
      if e + 1 <=? emax - prec then S754_finite s m (e + 1) else S754_infinity s
  | _ => x
  end.

(** A double that is finite, not zero, and neither in the least binade
    nor in the three greatest: its magnitude is at least 2^-1021 and
    below 2^1021. *)
Definition ample (x : float) : bool :=
  match Prim2SF x with
  | S754_finite _ _ e => (emin <? e) && (e <? 969)
  | _ => false
  end.

(** Every number computed for the [i]-th body [body] over a run from the
    scene as built: the reciprocal of its period, its speed, the addend of
    each frame and the angle after each frame. *)
Definition computed (Math_sin : float -> float) (bodies : list CelestialBody)
           (i : nat) (body : CelestialBody) (flags : list bool) : list float :=
  ((1 / period body)%float :: speed body
     :: map (fun flag => (speed body * frameDelta flag)%float) flags
     ++ angles Math_sin bodies i flags (built bodies))%list.

(** The rational number that a double is (0 for what is not a number). *)
Definition exact (x : float) : Q :=
  match Prim2SF x with
  | S754_finite s m e =>
      ((if s then -1 else 1) * inject_Z (Z.pos m) * 2 ^ e)%Q
  | _ => 0%Q
  end.

End Binary64.

(* ================================================================== *)
(** * Scenarios *)
(* ================================================================== *)

Module Scenario.
Import App.

(** Start, let the countdown run out, press the button again. *)
Definition overrun : list Action :=
  (do_toggle 0 :: repeat (do_tick 0) 300 ++ [do_toggle 0])%list.

(** The component just after the first press of the button. *)
Definition started (now : Z) : Component :=
  handle click_toggle (mount now).

(** Five minutes later. *)
Definition completed : Component :=
  idle (Z.to_nat 300000) (started 0).

(** The button is pressed once more. *)
Definition restarted : Component :=
  handle click_toggle completed.

(** A component that has been idle for 39.999 seconds since its mount. *)
Definition waiting : Component :=
  idle (Z.to_nat 39999) (mount 0).

(** Surroundings without a credential, and with one but with a remote
    call that fails. *)
Definition no_credential : GenAI.Env :=
  GenAI.mkEnv None (fun _ => JS.Rejected "unreachable") 0%Q.

Definition failing_service : GenAI.Env :=
  GenAI.mkEnv (Some "key") (fun _ => JS.Rejected "503") 0%Q.


Definition entry (n : Z) : RobotMessage :=
  mkRobotMessage (JS.Z_toString n) msg_info n.

(** A placeholder for lookups outside a table. *)
Definition nobody : CelestialBody :=
  mkCelestialBody EmptyString moon None 0 0 EmptyString EmptyString 0
                  EmptyString EmptyString.

(** A table of two bodies, the first with half the period of the second. *)
Definition twins : list CelestialBody :=
  [ mkCelestialBody "Inner" moon (Some "Mars") 3.827%Q 4
      "border-cyan-500/20" "rotateX(70deg)" 300 "inner twin" "none";
    mkCelestialBody "Outer" moon (Some "Mars") 7.654%Q 8
      "border-cyan-500/20" "rotateX(70deg)" 300 "outer twin" "none" ].

(** The run of [completed] and [restarted], continued until just before
    the 40-second interval fires. *)
Definition stalling : list App.Event :=
  (click_toggle :: repeat ms (Z.to_nat 300000)
     ++ click_toggle :: repeat ms (Z.to_nat 39999))%list.

(** A timer that was started 400 ms before. *)
Definition midSecond : Component :=
  idle 400 (started 0).

(** A request in flight while the timer is stalled at zero. *)
Definition polled : Component :=
  idle (Z.to_nat 40000) restarted.

End Scenario.

(* ================================================================== *)
(** * Properties: period formatting *)
(* ================================================================== *)

Section Formatting.

Lemma length_append (s t : string) :
  String.length (s ++ t) = (String.length s + String.length t)%nat.
Proof. induction s as [|c s IH]; cbn; [reflexivity | now rewrite IH]. Qed.

Lemma substring_all (t : string) : substring 0 (String.length t) t = t.
Proof. induction t as [|c t IH]; cbn; [reflexivity | now rewrite IH]. Qed.

Lemma substring_append (s t : string) :
  substring (String.length s) (String.length t) (s ++ t) = t.
Proof. induction s as [|c s IH]; cbn; [apply substring_all | exact IH]. Qed.

Lemma endsWith_append (s suffix : string) :
  JS.endsWith (s ++ suffix) suffix = true.
Proof.
  unfold JS.endsWith. rewrite length_append.
  replace (String.length s + String.length suffix - String.length suffix)%nat
    with (String.length s) by lia.
  rewrite substring_append, String.eqb_refl, andb_true_r.
  apply Nat.leb_le. lia.
Qed.

(** The unit depends on the two comparisons only, whatever digits
    [toFixed] yields. *)
Lemma formatOrbitalPeriod_hours (hours : Q) :
  (hours < 24)%Q ->
  formatOrbitalPeriod hours = JS.toFixed hours 2 ++ "h".
Proof.
  intros H. unfold formatOrbitalPeriod.
  destruct (Qlt_le_dec hours 24) as [_|Hge]; [reflexivity | lra].
Qed.

Lemma formatOrbitalPeriod_days (hours : Q) :
  (24 <= hours)%Q -> (hours < 8760)%Q ->
  formatOrbitalPeriod hours = JS.toFixed (hours / 24) 2 ++ "d".
Proof.
  intros Hlo Hhi. unfold formatOrbitalPeriod.
  destruct (Qlt_le_dec hours 24) as [Hlt|_]; [lra|].
  destruct (Qlt_le_dec hours (24 * 365)) as [_|Hge]; [reflexivity | lra].
Qed.

Lemma formatOrbitalPeriod_years (hours : Q) :
  (8760 <= hours)%Q ->
  formatOrbitalPeriod hours = JS.toFixed (hours / (24 * 365.25)) 2 ++ "yr".
Proof.
  intros Hlo. unfold formatOrbitalPeriod.
  destruct (Qlt_le_dec hours 24) as [Hlt|_]; [lra|].
  destruct (Qlt_le_dec hours (24 * 365)) as [Hlt|_]; [lra | reflexivity].
Qed.

(** C9.  [formatOrbitalPeriod] maps 7.654 to a string that ends in [h],
    655.72 and 2111.28 to strings that end in [d] (2111.28 / 24 is below
    365), and every period of at least 8760 hours to a string that ends in
    [yr]. *)
Theorem formatOrbitalPeriod_units :
  forall hours : Q,
    (8760 <= hours)%Q ->
    JS.endsWith (formatOrbitalPeriod 7.654) "h" = true /\
    JS.endsWith (formatOrbitalPeriod 655.72) "d" = true /\
    JS.endsWith (formatOrbitalPeriod 2111.28) "d" = true /\
    (2111.28 / 24 < 365)%Q /\
    JS.endsWith (formatOrbitalPeriod hours) "yr" = true.
Proof.
  intros hours Hyr.
  split; [|split; [|split; [|split]]].
  - rewrite formatOrbitalPeriod_hours by lra. apply endsWith_append.
  - rewrite formatOrbitalPeriod_days by lra. apply endsWith_append.
  - rewrite formatOrbitalPeriod_days by lra. apply endsWith_append.
  - vm_compute. reflexivity.
  - rewrite formatOrbitalPeriod_years by exact Hyr. apply endsWith_append.
Qed.

Lemma formatOrbitalPeriod_units_witness :
  JS.endsWith (formatOrbitalPeriod 8760) "yr" = true /\
  formatOrbitalPeriod 8760 = "1.00yr" /\
  formatOrbitalPeriod 7.654 = "7.65h" /\
  formatOrbitalPeriod 655.72 = "27.32d" /\
  formatOrbitalPeriod 2111.28 = "87.97d".
Proof.
  split; [|vm_compute; repeat split].
  apply (formatOrbitalPeriod_units 8760). vm_compute. discriminate.
Defined.

End Formatting.

(* ================================================================== *)
(** * Properties: the status log *)
(* ================================================================== *)

Section StatusLog.
Import App.

Lemma addMessage_cons (now : Z) (txt : string) (ty : option MessageType)
                      (prev : list RobotMessage) :
  addMessage now txt ty prev =
    mkRobotMessage txt (match ty with Some t => t | None => msg_info end) now
      :: firstn 9 prev.
Proof. reflexivity. Qed.

Lemma firstn_cons_firstn {A : Type} (n m : nat) (x : A) (l : list A) :
  (n <= S m)%nat -> firstn n (x :: firstn m l) = firstn n (x :: l).
Proof.
  intros Hle. destruct n as [|n]; [reflexivity|].
  cbn [firstn]. f_equal. rewrite firstn_firstn. f_equal. lia.
Qed.

Lemma insertAll_snoc (entries : list RobotMessage) (m : RobotMessage)
                     (log : list RobotMessage) :
  insertAll (entries ++ [m]) log = firstn 10 (m :: insertAll entries log).
Proof.
  unfold insertAll. rewrite fold_left_app. cbn [fold_left].
  unfold addMessage. destruct m; reflexivity.
Qed.

(** The log after a run of insertions: the ten newest of what was
    inserted and what was there, newest first. *)
Lemma insertAll_spec (entries log : list RobotMessage) :
  (List.length log <= 10)%nat ->
  insertAll entries log = firstn 10 (rev entries ++ log)%list.
Proof.
  intros Hlog. induction entries as [|m entries IH] using rev_ind.
  - unfold insertAll. cbn [fold_left rev app]. symmetry.
    apply firstn_all2. exact Hlog.
  - rewrite insertAll_snoc, IH, rev_app_distr. cbn [rev app].
    apply firstn_cons_firstn. lia.
Qed.

(** C5.  Whatever is inserted into a log of at most ten entries, the log
    keeps at most ten entries: the ten newest, newest first.  One
    insertion puts the new entry first and keeps the nine newest of the
    others.  After eleven insertions the log holds the last ten of them,
    newest first, and the first one inserted is gone. *)
Theorem log_bounded_newest_first :
  forall (log entries later : list RobotMessage) (oldest : RobotMessage),
    (List.length log <= 10)%nat ->
    List.length later = 10%nat ->
    ~ In oldest later ->
    (List.length (insertAll entries log) <= 10)%nat /\
    insertAll entries log = firstn 10 (rev entries ++ log)%list /\
    (forall now txt ty,
        addMessage now txt ty log =
          mkRobotMessage txt (match ty with Some t => t | None => msg_info end) now
            :: firstn 9 log) /\
    insertAll (oldest :: later) log = rev later /\
    ~ In oldest (insertAll (oldest :: later) log).
Proof.
  intros log entries later oldest Hlog Hlen Hnot.
  assert (H11 : insertAll (oldest :: later) log = rev later).
  { rewrite insertAll_spec by exact Hlog. cbn [rev].
    rewrite <- !app_assoc, firstn_app.
    rewrite firstn_all2 by (rewrite length_rev; lia).
    rewrite length_rev, Hlen. cbn [Nat.sub firstn]. apply app_nil_r. }
  split; [|split; [|split; [|split]]].
  - rewrite insertAll_spec by exact Hlog. apply firstn_le_length.
  - apply insertAll_spec, Hlog.
  - intros. apply addMessage_cons.
  - exact H11.
  - rewrite H11. intros Hin. apply Hnot. apply in_rev. exact Hin.
Qed.

Lemma log_bounded_newest_first_witness :
  insertAll (map Scenario.entry [0; 1; 2; 3; 4; 5; 6; 7; 8; 9; 10]) [] =
  map Scenario.entry [10; 9; 8; 7; 6; 5; 4; 3; 2; 1].
Proof.
  apply (log_bounded_newest_first [] []
           (map Scenario.entry [1; 2; 3; 4; 5; 6; 7; 8; 9; 10])
           (Scenario.entry 0)).
  - cbn. lia.
  - reflexivity.
  - intros Hin. vm_compute in Hin.
    repeat (destruct Hin as [Hin|Hin]; [discriminate Hin|]). exact Hin.
Defined.

End StatusLog.

(* ================================================================== *)
(** * Properties: the timer state machine *)
(* ================================================================== *)

Section TimerMachine.
Import App.

Lemma TimerStatus_eqb_eq (a b : TimerStatus) :
  TimerStatus_eqb a b = true <-> a = b.
Proof. destruct a, b; simpl; split; congruence. Qed.

Lemma ticking_spec (s : State) :
  ticking s = true <-> status s = RUNNING /\ 0 < timeLeft s.
Proof.
  unfold ticking. rewrite andb_true_iff, TimerStatus_eqb_eq, Z.ltb_lt.
  reflexivity.
Qed.

Lemma tick_stopped (now : Z) (s : State) :
  ticking s = false -> tick now s = s.
Proof. unfold tick. intros ->. reflexivity. Qed.

Lemma ticks_stopped (nows : list Z) (s : State) :
  ticking s = false -> ticks nows s = s.
Proof.
  intros Hs. induction nows as [|now rest IH]; [reflexivity|].
  unfold ticks in *. simpl. rewrite tick_stopped by exact Hs. exact IH.
Qed.

Lemma ticks_cons (now : Z) (rest : list Z) (s : State) :
  ticks (now :: rest) s = ticks rest (tick now s).
Proof. reflexivity. Qed.

(** A running countdown with at least one second left, after any number
    of ticks. *)
Lemma ticks_running (nows : list Z) :
  forall (s : State),
    status s = RUNNING -> 1 <= timeLeft s ->
    let n := Z.of_nat (List.length nows) in
    let s' := ticks nows s in
    timeLeft s' = Z.max 0 (timeLeft s - n) /\
    status s' = (if n <? timeLeft s then RUNNING else COMPLETED) /\
    messages s' =
      (if n <? timeLeft s then messages s
       else addMessage (nth (Z.to_nat (timeLeft s - 1)) nows 0)
                       completionText (Some msg_alert) (messages s)).
Proof.
  induction nows as [|now rest IH]; intros s Hrun Hpos n s'.
  - subst n s'. cbn [List.length]. change (Z.of_nat 0) with 0.
    replace (0 <? timeLeft s) with true by (symmetry; apply Z.ltb_lt; lia).
    unfold ticks. simpl. repeat split; try assumption. lia.
  - subst s'. rewrite ticks_cons.
    assert (Ht : ticking s = true)
      by (apply ticking_spec; split; [assumption|lia]).
    unfold tick. rewrite Ht. unfold onTick.
    assert (Hn : n = Z.of_nat (List.length rest) + 1)
      by (subst n; cbn [List.length]; rewrite Nat2Z.inj_succ; lia).
    clearbody n.
    destruct (timeLeft s <=? 1) eqn:Hle.
    + apply Z.leb_le in Hle. assert (Hone : timeLeft s = 1) by lia.
      rewrite ticks_stopped by reflexivity. cbn [timeLeft status messages].
      replace (n <? timeLeft s) with false
        by (symmetry; apply Z.ltb_ge; lia).
      rewrite Hone. change (Z.to_nat (1 - 1)) with 0%nat. cbn [nth].
      repeat split. lia.
    + apply Z.leb_gt in Hle.
      specialize (IH (mkState (timeLeft s - 1) (status s) (messages s))).
      cbn [timeLeft status messages] in IH.
      specialize (IH Hrun ltac:(lia)).
      destruct IH as (IH1 & IH2 & IH3).
      rewrite IH1, IH2, IH3.
      replace (Z.of_nat (List.length rest) <? timeLeft s - 1)
        with (n <? timeLeft s)
        by (rewrite Hn;
            destruct (Z.ltb_spec (Z.of_nat (List.length rest) + 1) (timeLeft s));
            symmetry; [apply Z.ltb_lt | apply Z.ltb_ge]; lia).
      repeat split; [lia|].
      destruct (n <? timeLeft s); [reflexivity|].
      replace (Z.to_nat (timeLeft s - 1))
        with (S (Z.to_nat (timeLeft s - 1 - 1))) by lia.
      reflexivity.
Qed.


Lemma run_snoc (actions : list Action) (a : Action) (s : State) :
  run (actions ++ [a]) s = apply a (run actions s).
Proof. unfold run. rewrite fold_left_app. reflexivity. Qed.

Lemma apply_bounds (a : Action) (s : State) :
  0 <= timeLeft s <= 300 -> 0 <= timeLeft (apply a s) <= 300.
Proof.
  intros Hs. destruct a as [now|now|now]; cbn [apply].
  - unfold toggleTimer.
    destruct (TimerStatus_eqb (status s) RUNNING); cbn [timeLeft]; exact Hs.
  - unfold resetTimer, INITIAL_TIME. cbn [timeLeft]. lia.
  - unfold tick. destruct (ticking s); [|exact Hs].
    unfold onTick. destruct (timeLeft s <=? 1) eqn:Hle; cbn [timeLeft].
    + lia.
    + apply Z.leb_gt in Hle. lia.
Qed.

Lemma reachable_bounds (actions : list Action) :
  0 <= timeLeft (run actions initial) <= 300.
Proof.
  induction actions as [|a actions IH] using rev_ind.
  - unfold run, initial, INITIAL_TIME. cbn [fold_left timeLeft]. lia.
  - rewrite run_snoc. apply apply_bounds. exact IH.
Qed.

(** Only a tick of a running timer lowers [timeLeft]. *)
Lemma decrease_only_running (a : Action) (s : State) :
  timeLeft s <= 300 ->
  timeLeft (apply a s) < timeLeft s ->
  status s = RUNNING /\ exists now, a = do_tick now.
Proof.
  intros Hs Hlt. destruct a as [now|now|now]; cbn [apply] in Hlt.
  - unfold toggleTimer in Hlt.
    destruct (TimerStatus_eqb (status s) RUNNING); cbn [timeLeft] in Hlt; lia.
  - unfold resetTimer, INITIAL_TIME in Hlt. cbn [timeLeft] in Hlt. lia.
  - unfold tick in Hlt. destruct (ticking s) eqn:Ht; [|lia].
    apply ticking_spec in Ht. split; [tauto | eauto].
Qed.

(** The step that brings [timeLeft] to 0 ends in [COMPLETED]. *)
Lemma reaching_zero_completes (a : Action) (s : State) :
  timeLeft s <> 0 -> timeLeft (apply a s) = 0 ->
  status (apply a s) = COMPLETED.
Proof.
  intros Hs Hz. destruct a as [now|now|now]; cbn [apply] in *.
  - unfold toggleTimer in Hz.
    destruct (TimerStatus_eqb (status s) RUNNING); cbn [timeLeft] in Hz; lia.
  - unfold resetTimer, INITIAL_TIME in Hz. cbn [timeLeft] in Hz. lia.
  - unfold tick in *. destruct (ticking s) eqn:Ht; [|lia].
    unfold onTick in *. destruct (timeLeft s <=? 1) eqn:Hle.
    + reflexivity.
    + apply Z.leb_gt in Hle. cbn [timeLeft] in Hz. lia.
Qed.

(** C2, as stated, fails: starting, letting the 300 seconds run out and
    pressing the button again leaves the timer [RUNNING] with 0 seconds
    left, so a state with [timeLeft = 0] need not be [COMPLETED]. *)
Lemma running_at_zero_reachable :
  timeLeft (run Scenario.overrun initial) = 0 /\
  status (run Scenario.overrun initial) = RUNNING /\
  ~ (forall actions : list Action,
       timeLeft (run actions initial) = 0 ->
       status (run actions initial) = COMPLETED).
Proof.
  assert (H : timeLeft (run Scenario.overrun initial) = 0 /\
              status (run Scenario.overrun initial) = RUNNING)
    by (vm_compute; split; reflexivity).
  destruct H as [Hz Hr]. repeat split; try assumption.
  intros Hall. specialize (Hall Scenario.overrun Hz). congruence.
Qed.

(** C2, amended.  In every state reachable from the initial one by
    toggles, resets and ticks, [timeLeft] lies between 0 and 300; a step
    lowers it only if that step is a tick and the state it starts from is
    [RUNNING]; and a step that takes it from a nonzero value to 0 ends in
    [COMPLETED]. *)
Theorem timer_steps_from_initial :
  forall (actions : list Action) (a : Action),
    let s := run actions initial in
    let s' := apply a s in
    0 <= timeLeft s <= 300 /\
    (timeLeft s' < timeLeft s ->
     status s = RUNNING /\ exists now, a = do_tick now) /\
    (timeLeft s <> 0 -> timeLeft s' = 0 -> status s' = COMPLETED).
Proof.
  intros actions a s s'.
  pose proof (reachable_bounds actions) as Hb. fold s in Hb.
  split; [exact Hb|]. split.
  - apply decrease_only_running. lia.
  - apply reaching_zero_completes.
Qed.

Lemma timer_steps_from_initial_witness :
  status (run (do_toggle 0 :: repeat (do_tick 0) 299) initial) = RUNNING /\
  status (run (do_toggle 0 :: repeat (do_tick 0) 300) initial) = COMPLETED.
Proof.
  pose proof (timer_steps_from_initial
                (do_toggle 0 :: repeat (do_tick 0) 299) (do_tick 0))
    as (_ & Hdown & Hzero).
  split.
  - apply Hdown. vm_compute. reflexivity.
  - change (run (do_toggle 0 :: repeat (do_tick 0) 300) initial)
      with (apply (do_tick 0)
              (run (do_toggle 0 :: repeat (do_tick 0) 299) initial)).
    apply Hzero; vm_compute; [discriminate | reflexivity].
Defined.

End TimerMachine.

(* ================================================================== *)
(** * Properties: the mounted component and its two intervals *)
(* ================================================================== *)

Section Scheduler.
Import App.

(** Both effects run again at the same renders. *)
Lemma pollEffect_reruns_eq (old new : State) :
  pollEffect_reruns old new = timerEffect_reruns old new.
Proof.
  unfold pollEffect_reruns, timerEffect_reruns, fetchAIStatus_recreated.
  destruct (TimerStatus_eqb (status old) (status new)),
           (timeLeft old =? timeLeft new); reflexivity.
Qed.

Lemma reruns_false (old new : State) :
  timerEffect_reruns old new = false ->
  status old = status new /\ timeLeft old = timeLeft new.
Proof.
  unfold timerEffect_reruns. intros H.
  apply orb_false_iff in H. destruct H as [H1 H2].
  apply negb_false_iff in H1, H2.
  apply TimerStatus_eqb_eq in H1. apply Z.eqb_eq in H2. tauto.
Qed.

Lemma reruns_true (old new : State) :
  status old <> status new \/ timeLeft old <> timeLeft new ->
  timerEffect_reruns old new = true.
Proof.
  intros H. destruct (timerEffect_reruns old new) eqn:E; [reflexivity|].
  apply reruns_false in E. tauto.
Qed.

Lemma ticking_same_deps (old new : State) :
  status old = status new -> timeLeft old = timeLeft new ->
  ticking new = ticking old.
Proof. unfold ticking. intros -> ->. reflexivity. Qed.

(** A render that follows a change of [status] or [timeLeft] leaves both
    intervals new. *)
Lemma commit_fresh (old : State) (c : Component) :
  timerEffect_reruns old (state c) = true ->
  commit old c =
    mkComponent (state c) (timerEffect (state c)) 0 (clock c)
                (inFlight c) (fetchCount c).
Proof.
  intros H. unfold commit. rewrite pollEffect_reruns_eq, H. reflexivity.
Qed.

Lemma commit_same (old : State) (c : Component) :
  timerEffect_reruns old (state c) = false -> commit old c = c.
Proof.
  intros H. unfold commit. rewrite pollEffect_reruns_eq, H.
  destruct c; reflexivity.
Qed.

Lemma fresh_coherent (s : State) (now : Z) (fl : list Z) (n : nat) :
  coherent (mkComponent s (timerEffect s) 0 now fl n).
Proof.
  unfold coherent, timerEffect. cbn [pollTimer timerRef state].
  split; [lia|].
  destruct (ticking s); [split; [reflexivity | lia] | reflexivity].
Qed.

Lemma update_coherent (f : State -> State) (c : Component) :
  coherent c -> coherent (update f c).
Proof.
  intros Hc. unfold update.
  destruct (timerEffect_reruns (state c) (f (state c))) eqn:E.
  - rewrite commit_fresh by exact E. apply fresh_coherent.
  - rewrite commit_same by exact E.
    apply reruns_false in E. destruct E as [E1 E2].
    pose proof (ticking_same_deps _ _ E1 E2) as Ht.
    unfold coherent in *. cbn [set_state pollTimer timerRef state].
    rewrite Ht. exact Hc.
Qed.

Lemma update_fields (f : State -> State) (c : Component) :
  state (update f c) = f (state c) /\
  clock (update f c) = clock c /\
  inFlight (update f c) = inFlight c /\
  fetchCount (update f c) = fetchCount c.
Proof. unfold update, commit. cbn. repeat split. Qed.

(** The poll callback touches neither the timer state nor an interval. *)
Lemma onPoll_fields (c : Component) :
  state (onPoll c) = state c /\ timerRef (onPoll c) = timerRef c /\
  pollTimer (onPoll c) = pollTimer c /\ clock (onPoll c) = clock c.
Proof.
  unfold onPoll, fetchAIStatus.
  destruct (TimerStatus_eqb (status (state c)) RUNNING); cbn; repeat split.
Qed.

Lemma onPoll_not_running (c : Component) :
  status (state c) <> RUNNING -> onPoll c = c.
Proof.
  intros H. unfold onPoll.
  destruct (TimerStatus_eqb (status (state c)) RUNNING) eqn:E; [|reflexivity].
  apply TimerStatus_eqb_eq in E. contradiction.
Qed.

(** One millisecond while the one-second interval is live. *)
Lemma elapse_live (c : Component) (e : Z) :
  coherent c -> timerRef c = Some e ->
  elapse c =
    if e + 1 =? 1000
    then mkComponent (onTick (clock c + 1) (state c))
                     (timerEffect (onTick (clock c + 1) (state c)))
                     0 (clock c + 1) (inFlight c) (fetchCount c)
    else mkComponent (state c) (Some (e + 1)) (e + 1) (clock c + 1)
                     (inFlight c) (fetchCount c).
Proof.
  intros [Hp Hc] He. rewrite He in Hc. destruct Hc as (Ht & Hr & Hpe).
  unfold elapse. rewrite He, Hpe. cbn [option_map pollTimer].
  replace (e + 1 =? 40000) with false by (symmetry; apply Z.eqb_neq; lia).
  cbn [timerRef]. change (Z.succ e) with (e + 1).
  destruct (e + 1 =? 1000) eqn:E; [|reflexivity].
  unfold update.
  cbn [set_timerRef state clock set_state timerRef pollTimer inFlight fetchCount].
  rewrite commit_fresh; [reflexivity|].
  cbn [state]. apply reruns_true. right.
  apply ticking_spec in Ht. destruct Ht as [_ Ht].
  unfold onTick. destruct (timeLeft (state c) <=? 1) eqn:Hle;
    cbn [set_state state timeLeft]; lia.
Qed.

(** One millisecond while there is no one-second interval. *)
Lemma elapse_stopped (c : Component) :
  timerRef c = None ->
  elapse c =
    if pollTimer c + 1 =? 40000
    then onPoll (mkComponent (state c) None 0 (clock c + 1)
                             (inFlight c) (fetchCount c))
    else mkComponent (state c) None (pollTimer c + 1) (clock c + 1)
                     (inFlight c) (fetchCount c).
Proof.
  intros Hn. unfold elapse. rewrite Hn. cbn [option_map pollTimer].
  destruct (pollTimer c + 1 =? 40000).
  - pose proof (onPoll_fields (set_pollTimer 0
       (mkComponent (state c) None (pollTimer c + 1) (clock c + 1)
                    (inFlight c) (fetchCount c)))) as (_ & Hr & _).
    rewrite Hr. reflexivity.
  - reflexivity.
Qed.

Lemma elapse_coherent (c : Component) : coherent c -> coherent (elapse c).
Proof.
  intros Hc. destruct (timerRef c) as [e|] eqn:He.
  - rewrite (elapse_live c e Hc He).
    destruct Hc as [Hp Hc]. rewrite He in Hc. destruct Hc as (Ht & Hr & Hpe).
    destruct (e + 1 =? 1000) eqn:E.
    + apply fresh_coherent.
    + apply Z.eqb_neq in E. unfold coherent. cbn [pollTimer timerRef state].
      repeat split; try lia. exact Ht.
  - rewrite (elapse_stopped c He).
    destruct Hc as [Hp Hc]. rewrite He in Hc.
    destruct (pollTimer c + 1 =? 40000) eqn:E.
    + unfold coherent.
      match goal with |- context [onPoll ?x] =>
        pose proof (onPoll_fields x) as (Hs & Hr & Hq & _) end.
      rewrite Hs, Hr, Hq. cbn [pollTimer timerRef state].
      split; [lia | exact Hc].
    + apply Z.eqb_neq in E. unfold coherent. cbn [pollTimer timerRef state].
      split; [lia | exact Hc].
Qed.

Lemma settle_coherent (i : nat) (env : GenAI.Env) (c : Component) :
  coherent c -> coherent (settle i env c).
Proof.
  intros Hc. unfold settle.
  destruct (nth_error (inFlight c) i) as [arg|]; [|exact Hc].
  destruct (fst (GeminiService.getRoboticStatus env arg)).
  - apply update_coherent. exact Hc.
  - exact Hc.
Qed.

Lemma settle_fetchCount (i : nat) (env : GenAI.Env) (c : Component) :
  fetchCount (settle i env c) = fetchCount c.
Proof.
  unfold settle. destruct (nth_error (inFlight c) i) as [arg|]; [|reflexivity].
  destruct (fst (GeminiService.getRoboticStatus env arg)); reflexivity.
Qed.

Lemma handle_coherent (e : Event) (c : Component) :
  coherent c -> coherent (handle e c).
Proof.
  intros Hc. destruct e; cbn [handle].
  - apply update_coherent, Hc.
  - apply update_coherent, Hc.
  - apply elapse_coherent, Hc.
  - apply settle_coherent, Hc.
Qed.

Lemma mount_coherent (now : Z) : coherent (mount now).
Proof. apply fresh_coherent. Qed.

Lemma play_snoc (events : list Event) (e : Event) (c : Component) :
  play (events ++ [e]) c = handle e (play events c).
Proof. unfold play. rewrite fold_left_app. reflexivity. Qed.

(** Every component reached from a mount is coherent. *)
Lemma play_coherent (events : list Event) (now : Z) :
  coherent (play events (mount now)).
Proof.
  induction events as [|e events IH] using rev_ind.
  - apply mount_coherent.
  - rewrite play_snoc. apply handle_coherent, IH.
Qed.

Lemma idle_S (n : nat) (c : Component) : idle (S n) c = elapse (idle n c).
Proof. reflexivity. Qed.

Lemma idle_coherent (n : nat) (c : Component) :
  coherent c -> coherent (idle n c).
Proof.
  intros Hc. induction n as [|n IH]; [exact Hc|].
  rewrite idle_S. apply elapse_coherent, IH.
Qed.

Lemma idle_stopped (n : nat) (c : Component) :
  timerRef c = None ->
  state (idle n c) = state c /\ timerRef (idle n c) = None.
Proof.
  intros Hn. induction n as [|n [IHs IHr]]; [split; [reflexivity | exact Hn]|].
  rewrite idle_S, (elapse_stopped _ IHr).
  destruct (pollTimer (idle n c) + 1 =? 40000).
  - match goal with |- context [onPoll ?x] =>
      pose proof (onPoll_fields x) as (Hs & Hr & _) end.
    rewrite Hs, Hr. cbn [state timerRef]. split; [exact IHs | reflexivity].
  - cbn [state timerRef]. split; [exact IHs | reflexivity].
Qed.

(** While the one-second interval is live and younger than its period,
    time only ages the two intervals. *)
Lemma idle_live (k : nat) :
  forall (c : Component) (e : Z),
    coherent c -> timerRef c = Some e -> e + Z.of_nat k < 1000 ->
    idle k c =
      mkComponent (state c) (Some (e + Z.of_nat k)) (e + Z.of_nat k)
                  (clock c + Z.of_nat k) (inFlight c) (fetchCount c).
Proof.
  induction k as [|k IH]; intros c e Hc He Hlt.
  - cbn [idle Nat.iter]. change (Z.of_nat 0) with 0. rewrite !Z.add_0_r.
    destruct Hc as [_ Hc]. rewrite He in Hc. destruct Hc as (_ & _ & Hpe).
    destruct c; cbn in *. subst. reflexivity.
  - rewrite idle_S.
    pose proof (idle_coherent k c Hc) as Hck.
    rewrite (IH c e Hc He ltac:(lia)) in *.
    rewrite (elapse_live _ (e + Z.of_nat k) Hck eq_refl).
    replace (e + Z.of_nat k + 1 =? 1000) with false
      by (symmetry; apply Z.eqb_neq; lia).
    cbn [state clock inFlight fetchCount].
    rewrite Nat2Z.inj_succ.
    replace (e + Z.of_nat k + 1) with (e + Z.succ (Z.of_nat k)) by lia.
    replace (clock c + Z.of_nat k + 1) with (clock c + Z.succ (Z.of_nat k)) by lia.
    reflexivity.
Qed.

Lemma second_fires (k : nat) (c : Component) :
  coherent c -> timerRef c = Some 0 -> Z.of_nat k = 999 ->
  state (idle (S k) c) = onTick (clock c + 1000) (state c).
Proof.
  intros Hc He Hk. rewrite idle_S.
  pose proof (idle_coherent k c Hc) as Hck.
  rewrite (idle_live k c 0 Hc He ltac:(lia)) in *.
  rewrite (elapse_live _ (0 + Z.of_nat k) Hck eq_refl).
  replace (0 + Z.of_nat k + 1 =? 1000) with true
    by (symmetry; apply Z.eqb_eq; lia).
  cbn [state clock]. f_equal. lia.
Qed.

(** A second of wall-clock time is one [tick] of the timer state. *)
Lemma second_is_tick (c : Component) :
  coherent c -> (forall e, timerRef c = Some e -> e = 0) ->
  state (idle 1000 c) = tick (clock c + 1000) (state c).
Proof.
  intros Hc Hnew. destruct (timerRef c) as [e|] eqn:He.
  - rewrite (Hnew e eq_refl) in He.
    rewrite (second_fires 999 c Hc He eq_refl).
    destruct Hc as [_ Hc]. rewrite He in Hc.
    destruct Hc as (Ht & _). unfold tick. rewrite Ht. reflexivity.
  - destruct Hc as [_ Hc]. rewrite He in Hc.
    unfold tick. rewrite Hc. apply idle_stopped, He.
Qed.

Lemma elapse_clock (c : Component) : clock (elapse c) = clock c + 1.
Proof.
  unfold elapse.
  set (c1 := mkComponent (state c) (option_map Z.succ (timerRef c))
                         (pollTimer c + 1) (clock c + 1)
                         (inFlight c) (fetchCount c)).
  set (c2 := if pollTimer c1 =? 40000 then onPoll (set_pollTimer 0 c1) else c1).
  assert (H2 : clock c2 = clock c + 1).
  { subst c2. destruct (pollTimer c1 =? 40000); [|reflexivity].
    destruct (onPoll_fields (set_pollTimer 0 c1)) as (_ & _ & _ & H).
    rewrite H. reflexivity. }
  destruct (timerRef c2) as [e|]; [|exact H2].
  destruct (e =? 1000); [|exact H2].
  destruct (update_fields (onTick (clock c2)) (set_timerRef (Some 0) c2))
    as (_ & H & _).
  rewrite H. exact H2.
Qed.

Lemma idle_clock (n : nat) (c : Component) :
  clock (idle n c) = clock c + Z.of_nat n.
Proof.
  induction n as [|n IH];
    [change (idle 0 c) with c; change (Z.of_nat 0) with 0; lia|].
  rewrite idle_S, elapse_clock, IH. lia.
Qed.

(** After a whole second, the one-second interval is new or absent. *)
Lemma second_leaves_new (k : nat) (c : Component) :
  coherent c -> (forall e, timerRef c = Some e -> e = 0) ->
  Z.of_nat k = 999 ->
  forall e, timerRef (idle (S k) c) = Some e -> e = 0.
Proof.
  intros Hc Hnew Hk e. destruct (timerRef c) as [e0|] eqn:He.
  - rewrite (Hnew e0 eq_refl) in He. rewrite idle_S.
    pose proof (idle_coherent k c Hc) as Hck.
    rewrite (idle_live k c 0 Hc He ltac:(lia)) in *.
    rewrite (elapse_live _ (0 + Z.of_nat k) Hck eq_refl).
    replace (0 + Z.of_nat k + 1 =? 1000) with true
      by (symmetry; apply Z.eqb_eq; lia).
    cbn [timerRef]. unfold timerEffect.
    destruct (ticking _); congruence.
  - destruct (idle_stopped (S k) c He) as [_ Hr]. rewrite Hr. discriminate.
Qed.

Lemma ticks_snoc (nows : list Z) (now : Z) (s : State) :
  ticks (nows ++ [now]) s = tick now (ticks nows s).
Proof. unfold ticks. rewrite fold_left_app. reflexivity. Qed.

(** Wall-clock seconds are the ticks of the timer state machine: [n]
    seconds after a render that installed the intervals, the timer state
    is the one reached by [n] ticks, stamped with the time of each. *)
Lemma seconds_are_ticks (n : nat) (c : Component) :
  coherent c -> (forall e, timerRef c = Some e -> e = 0) ->
  coherent (seconds n c) /\
  (forall e, timerRef (seconds n c) = Some e -> e = 0) /\
  clock (seconds n c) = clock c + 1000 * Z.of_nat n /\
  state (seconds n c) =
    ticks (map (fun k => clock c + 1000 * Z.of_nat k) (seq 1 n)) (state c).
Proof.
  intros Hc Hnew. induction n as [|n (IHc & IHnew & IHclock & IHstate)].
  - change (seconds 0 c) with c. cbn [seq map]. change (Z.of_nat 0) with 0.
    split; [exact Hc|]. split; [exact Hnew|]. split; [lia | reflexivity].
  - change (seconds (S n) c) with (idle 1000 (seconds n c)).
    split; [apply idle_coherent, IHc|].
    split; [apply (second_leaves_new 999 _ IHc IHnew eq_refl)|].
    split.
    + rewrite idle_clock, IHclock, Nat2Z.inj_succ.
      change (Z.of_nat 1000) with 1000. lia.
    + rewrite (second_is_tick _ IHc IHnew), IHstate, IHclock.
      rewrite seq_S, map_app. cbn [map]. rewrite ticks_snoc.
      f_equal. change (1 + n)%nat with (S n). rewrite Nat2Z.inj_succ. lia.
Qed.

(** The fetcher is called by the poll only, and only while the timer is
    [RUNNING] with no time left. *)
Lemma fetch_needs_stalled_timer (e : Event) (c : Component) :
  coherent c -> fetchCount (handle e c) <> fetchCount c ->
  e = ms /\ status (state c) = RUNNING /\ timeLeft (state c) <= 0.
Proof.
  intros Hc Hne. destruct e; cbn [handle] in Hne.
  - exfalso. apply Hne. apply update_fields.
  - exfalso. apply Hne. apply update_fields.
  - split; [reflexivity|].
    destruct (timerRef c) as [e|] eqn:He.
    + exfalso. apply Hne. rewrite (elapse_live c e Hc He).
      destruct (e + 1 =? 1000); reflexivity.
    + rewrite (elapse_stopped c He) in Hne.
      destruct Hc as [_ Hc]. rewrite He in Hc.
      destruct (pollTimer c + 1 =? 40000); [|exfalso; apply Hne; reflexivity].
      unfold onPoll, fetchAIStatus in Hne. cbn [state] in Hne.
      destruct (TimerStatus_eqb (status (state c)) RUNNING) eqn:Hs;
        [|exfalso; apply Hne; reflexivity].
      apply TimerStatus_eqb_eq in Hs. split; [exact Hs|].
      destruct (Z_le_gt_dec (timeLeft (state c)) 0) as [Hle|Hgt]; [exact Hle|].
      assert (Ht : ticking (state c) = true)
        by (apply ticking_spec; split; [exact Hs | lia]).
      congruence.
  - exfalso. apply Hne. apply settle_fetchCount.
Qed.

(** While the countdown runs, and after it has run out, a millisecond
    brings no call of the fetcher. *)
Lemma elapse_countdown (c : Component) :
  coherent c ->
  ticking (state c) = true \/ status (state c) = COMPLETED ->
  fetchCount (elapse c) = fetchCount c /\
  inFlight (elapse c) = inFlight c /\
  (ticking (state (elapse c)) = true \/ status (state (elapse c)) = COMPLETED).
Proof.
  intros Hc Hphase. destruct (timerRef c) as [e|] eqn:He.
  - rewrite (elapse_live c e Hc He).
    destruct Hc as [_ Hc]. rewrite He in Hc. destruct Hc as (Ht & _ & _).
    destruct (e + 1 =? 1000); cbn [fetchCount inFlight state].
    + repeat split. apply ticking_spec in Ht. destruct Ht as [Hs Ht].
      unfold onTick. destruct (timeLeft (state c) <=? 1) eqn:Hle.
      * right. reflexivity.
      * left. apply Z.leb_gt in Hle. apply ticking_spec.
        cbn [status timeLeft]. split; [exact Hs | lia].
    + repeat split. left. exact Ht.
  - rewrite (elapse_stopped c He).
    destruct Hc as [_ Hc]. rewrite He in Hc.
    assert (Hs : status (state c) = COMPLETED)
      by (destruct Hphase as [H|H]; [congruence | exact H]).
    destruct (pollTimer c + 1 =? 40000).
    + rewrite onPoll_not_running by (cbn [state]; congruence).
      cbn [fetchCount inFlight state]. repeat split. right. exact Hs.
    + cbn [fetchCount inFlight state]. repeat split. right. exact Hs.
Qed.

Lemma started_coherent (now : Z) : coherent (Scenario.started now).
Proof.
  unfold Scenario.started. apply handle_coherent, mount_coherent.
Qed.

Lemma idle_countdown (n : nat) (now : Z) :
  let c := idle n (Scenario.started now) in
  fetchCount c = 0%nat /\ inFlight c = [] /\
  (ticking (state c) = true \/ status (state c) = COMPLETED).
Proof.
  induction n as [|n IH].
  - cbn [idle Nat.iter]. repeat split. left. reflexivity.
  - cbv zeta in *. rewrite idle_S. destruct IH as (Hf & Hi & Hp).
    pose proof (elapse_countdown (idle n (Scenario.started now))
                  (idle_coherent n _ (started_coherent now)) Hp)
      as (Hf' & Hi' & Hp').
    rewrite Hf', Hi'. repeat split; assumption.
Qed.

(** C3.  What the code does where the claim expects a poll: from the
    press of the start button on, however many milliseconds pass, the
    fetcher has not been called and no call is in flight; as long as the
    timer is [RUNNING] the 40-second interval is less than one second old,
    because it is installed anew at every change of [timeLeft].  After 40
    seconds the timer is [RUNNING] with 260 seconds left and the fetcher
    has been called 0 times. *)
Theorem poll_starved_by_countdown :
  (forall (now : Z) (n : nat),
      let c := idle n (Scenario.started now) in
      fetchCount c = 0%nat /\ inFlight c = [] /\
      ((status (state c) = RUNNING /\ 0 < timeLeft (state c) /\
        pollTimer c < 1000) \/
       status (state c) = COMPLETED)) /\
  (let c := idle (Z.to_nat 40000) (Scenario.started 0) in
   status (state c) = RUNNING /\ timeLeft (state c) = 260 /\
   clock c = 40000 /\ fetchCount c = 0%nat).
Proof.
  split.
  - intros now n c.
    destruct (idle_countdown n now) as (Hf & Hi & Hp). fold c in Hf, Hi, Hp.
    repeat split; try assumption.
    destruct Hp as [Ht | Hs]; [left | right; exact Hs].
    pose proof (idle_coherent n _ (started_coherent now)) as [_ Hc].
    fold c in Hc. apply ticking_spec in Ht as Hrt. destruct Hrt as [Hr Hpos].
    destruct (timerRef c) as [e|]; [|congruence].
    destruct Hc as (_ & He & Hpe). repeat split; try assumption. lia.
  - vm_compute. repeat split.
Qed.

(** C7.  When the timer is not [RUNNING], the callback of the 40-second
    interval changes nothing at all: timer state, log, calls in flight and
    the count of calls are as before.  In a coherent component the
    millisecond in which that interval fires moves the clock, starts the
    next 40 seconds, and nothing else. *)
Theorem poll_skipped_unless_running :
  forall c : Component,
    status (state c) <> RUNNING ->
    onPoll c = c /\
    (coherent c -> pollTimer c = 39999 ->
     elapse c =
       mkComponent (state c) (timerRef c) 0 (clock c + 1)
                   (inFlight c) (fetchCount c)).
Proof.
  intros c Hs. split; [apply onPoll_not_running, Hs|].
  intros [_ Hc] Hp.
  destruct (timerRef c) as [e|] eqn:He.
  - destruct Hc as (Ht & _ & _). apply ticking_spec in Ht. tauto.
  - rewrite (elapse_stopped c He). rewrite Hp.
    change (39999 + 1 =? 40000) with true. cbv iota.
    apply onPoll_not_running. exact Hs.
Qed.

Lemma poll_skipped_unless_running_witness :
  status (state Scenario.waiting) = IDLE /\
  elapse Scenario.waiting =
    mkComponent (state Scenario.waiting) (timerRef Scenario.waiting) 0
                (clock Scenario.waiting + 1)
                (inFlight Scenario.waiting) (fetchCount Scenario.waiting).
Proof.
  split; [vm_compute; reflexivity|].
  apply (poll_skipped_unless_running Scenario.waiting).
  - vm_compute. discriminate.
  - unfold coherent. vm_compute. repeat split; discriminate.
  - vm_compute. reflexivity.
Defined.

(** C4, as stated, fails: five minutes after the start the timer is
    [COMPLETED] with 0 seconds left; the button is pressed; one second
    later the timer is [RUNNING], not [COMPLETED], and the log is the one
    the press left, with a single alert in it. *)
Lemma no_recompletion_after_toggle :
  status (state Scenario.completed) = COMPLETED /\
  timeLeft (state Scenario.completed) = 0 /\
  let c := idle 1000 Scenario.restarted in
  status (state c) = RUNNING /\
  status (state c) <> COMPLETED /\
  messages (state c) = messages (state Scenario.restarted) /\
  map type (messages (state c)) = [msg_info; msg_alert; msg_info].
Proof.
  vm_compute. repeat split. discriminate.
Qed.

(** C4, amended.  Pressing the button while the timer is [COMPLETED] with
    0 seconds left makes it [RUNNING] and leaves the 0 in place; no
    one-second interval is installed, so however much time passes the
    timer state and the log stay as the press left them: the timer does
    not complete again and no alert is logged. *)
Theorem toggle_after_completion_stalls :
  forall c : Component,
    status (state c) = COMPLETED -> timeLeft (state c) = 0 ->
    let c1 := handle click_toggle c in
    status (state c1) = RUNNING /\ timeLeft (state c1) = 0 /\
    timerRef c1 = None /\
    (forall n : nat, state (idle n c1) = state c1) /\
    (forall now : Z, tick now (state c1) = state c1).
Proof.
  intros c Hs Hz c1.
  assert (Hst : state c1 =
                mkState 0 RUNNING
                  (addMessage (clock c) "INITIATING ALIEN LOGIC SEQUENCE."
                              (Some msg_info) (messages (state c)))).
  { subst c1. cbn [handle].
    destruct (update_fields (toggleTimer (clock c)) c) as [H _].
    rewrite H. unfold toggleTimer. rewrite Hs, Hz. reflexivity. }
  assert (Hr : timerRef c1 = None).
  { subst c1. cbn [handle]. unfold update.
    rewrite commit_fresh.
    - cbn [timerRef set_state state]. unfold timerEffect, ticking, toggleTimer.
      rewrite Hs, Hz. reflexivity.
    - apply reruns_true. left. cbn [set_state state]. unfold toggleTimer.
      rewrite Hs. cbn. discriminate. }
  rewrite Hst. cbn [status timeLeft].
  split; [reflexivity|]. split; [reflexivity|]. split; [exact Hr|]. split.
  - intros n. rewrite <- Hst. apply idle_stopped, Hr.
  - intros now. reflexivity.
Qed.

Lemma toggle_after_completion_stalls_witness :
  status (state Scenario.restarted) = RUNNING /\
  timeLeft (state Scenario.restarted) = 0 /\
  timerRef Scenario.restarted = None.
Proof.
  pose proof (toggle_after_completion_stalls Scenario.completed
                ltac:(vm_compute; reflexivity) ltac:(vm_compute; reflexivity))
    as (H1 & H2 & H3 & _).
  exact (conj H1 (conj H2 H3)).
Defined.

End Scheduler.

(* ================================================================== *)
(** * Properties: the status-text fetcher *)
(* ================================================================== *)

Section Fetcher.
Import GenAI GeminiService.




Lemma getRoboticStatus_fulfils (env : Env) (timeLeft : Z) :
  exists s, fst (getRoboticStatus env timeLeft) = JS.Fulfilled s.
Proof.
  unfold getRoboticStatus.
  destruct (negb (truthy (API_KEY env))); [eexists; reflexivity|].
  cbn [NASA_SPACECRAFT].
  match goal with |- context [generateContent env ?r] =>
    destruct (generateContent env r) end; eexists; reflexivity.
Qed.







End Fetcher.

(* ================================================================== *)
(** * Properties: the scene animator *)
(* ================================================================== *)

Section Animator.
Import ThreeScene.
Open Scope Q_scope.

Variable Math_sin : Q -> Q.
Variable bodies : list CelestialBody.

Lemma orbit_length (bs : list CelestialBody) (pivots : list Q) (dt : Q) :
  List.length (orbit bs pivots dt) = List.length pivots.
Proof.
  revert pivots. induction bs as [|b bs IH]; intros [|y pivots];
    cbn [orbit List.length]; try reflexivity.
  now rewrite IH.
Qed.

Lemma orbit_nth (bs : list CelestialBody) (dt : Q) :
  forall (pivots : list Q) (i : nat) (body : CelestialBody),
    nth_error bs i = Some body -> (i < List.length pivots)%nat ->
    nth i (orbit bs pivots dt) 0 = nth i pivots 0 + speed body * dt.
Proof.
  induction bs as [|b bs IH]; intros pivots i body Hb Hi.
  - destruct i; discriminate Hb.
  - destruct pivots as [|y pivots]; [cbn in Hi; lia|].
    destruct i as [|i]; cbn [orbit nth].
    + cbn in Hb. injection Hb as ->. reflexivity.
    + cbn in Hb, Hi. apply IH; [exact Hb | lia].
Qed.

Lemma animate_angle (flag : bool) (s : Scene) (i : nat) (body : CelestialBody) :
  nth_error bodies i = Some body -> (i < List.length (orbitPivots s))%nat ->
  angle i (animate Math_sin bodies flag s) =
    angle i s + speed body * frameDelta flag.
Proof.
  intros Hb Hi. unfold angle, animate. cbn [orbitPivots]. now apply orbit_nth.
Qed.

Lemma animate_pivots (flag : bool) (s : Scene) :
  List.length (orbitPivots (animate Math_sin bodies flag s)) =
  List.length (orbitPivots s).
Proof. unfold animate. cbn [orbitPivots]. apply orbit_length. Qed.

(** Over any run of frames the angle of a body follows the accumulator. *)
Lemma frames_angle (flags : list bool) :
  forall (s : Scene) (i : nat) (body : CelestialBody),
    nth_error bodies i = Some body -> (i < List.length (orbitPivots s))%nat ->
    angle i (frames Math_sin bodies flags s) - angle i s ==
      speed body * (t (frames Math_sin bodies flags s) - t s).
Proof.
  induction flags as [|flag flags IH]; intros s i body Hb Hi.
  - unfold frames. cbn [fold_left]. ring.
  - change (frames Math_sin bodies (flag :: flags) s)
      with (frames Math_sin bodies flags (animate Math_sin bodies flag s)).
    specialize (IH (animate Math_sin bodies flag s) i body Hb).
    rewrite animate_pivots in IH. specialize (IH Hi).
    rewrite (animate_angle flag s i body Hb Hi) in IH.
    change (t (animate Math_sin bodies flag s)) with (t s + frameDelta flag) in IH.
    lra.
Qed.

End Animator.

(* ================================================================== *)
(** * Properties: rounding in binary64 *)
(* ================================================================== *)

(** The library specifies the operations of binary64 on a sign, a
    mantissa and an exponent ([SpecFloat]).  A result is rounded in two
    steps ([binary_round_aux]): the mantissa is shifted to the precision
    of its binade and rounded to nearest, ties to even, and shifted once
    more when the rounding carried into a further digit.  Above the
    subnormal numbers the shifts depend on the number of digits of the
    mantissa only, so the same mantissa with the exponent raised by one
    is rounded to the same mantissa with the exponent raised by one:
    rounding commutes with doubling.  The lemmas of this section carry
    that through multiplication, division and addition. *)
Section Binary64Arithmetic.
Import Floats Binary64.

Lemma fexp_eq (x : Z) : fexp prec emax x = Z.max (x - 53) (-1074).
Proof. reflexivity. Qed.

Lemma Zdigits2_nonneg (m : Z) : 0 <= Zdigits2 m.
Proof. destruct m; cbn; lia. Qed.

Lemma digits2_pos_size (p : positive) : digits2_pos p = Pos.size p.
Proof. induction p; cbn; congruence. Qed.

Lemma digits2_pos_succ (p : positive) :
  (digits2_pos (Pos.succ p) <= Pos.succ (digits2_pos p))%positive.
Proof. induction p; cbn [Pos.succ digits2_pos]; lia. Qed.

Lemma Zdigits2_succ (m : Z) : 0 <= m -> Zdigits2 (m + 1) <= Zdigits2 m + 1.
Proof.
  intros Hm. destruct m as [|p|p]; [cbn; lia | | lia].
  change (Z.pos p + 1) with (Z.pos (p + 1)). cbn [Zdigits2].
  rewrite Pos.add_1_r. pose proof (digits2_pos_succ p). lia.
Qed.

Lemma round_nearest_even_cases (m : Z) (l : location) :
  round_nearest_even m l = m \/ round_nearest_even m l = m + 1.
Proof.
  destruct l as [|[| |]]; cbn; auto. destruct (Z.even m); auto.
Qed.

Lemma shr_m_of_loc (m : Z) (l : location) : shr_m (shr_record_of_loc m l) = m.
Proof. destruct l as [|[| |]]; reflexivity. Qed.

Lemma shr_1_nonneg (mrs : shr_record) : 0 <= shr_m mrs -> 0 <= shr_m (shr_1 mrs).
Proof.
  destruct mrs as [m r s]. cbn [shr_m]. intros H.
  destruct m as [|[p|p|]|p]; cbn; lia.
Qed.

(** A shift to the right takes one digit off the mantissa. *)
Lemma shr_1_digits (mrs : shr_record) :
  Zdigits2 (shr_m (shr_1 mrs)) = Z.max 0 (Zdigits2 (shr_m mrs) - 1).
Proof.
  destruct mrs as [m r s].
  destruct m as [|[p|p|]|[p|p|]]; cbn [shr_1 shr_m Zdigits2 digits2_pos]; lia.
Qed.

Lemma iter_shr_1 (p : positive) :
  forall mrs : shr_record,
    (0 <= shr_m mrs -> 0 <= shr_m (iter_pos shr_1 p mrs)) /\
    Zdigits2 (shr_m (iter_pos shr_1 p mrs)) =
      Z.max 0 (Zdigits2 (shr_m mrs) - Z.pos p).
Proof.
  induction p as [p IH|p IH|]; intros mrs; cbn [iter_pos].
  - destruct (IH (shr_1 mrs)) as [N1 D1].
    destruct (IH (iter_pos shr_1 p (shr_1 mrs))) as [N2 D2].
    split; [intros H; apply N2, N1, shr_1_nonneg, H|].
    rewrite D2, D1, shr_1_digits. lia.
  - destruct (IH mrs) as [N1 D1].
    destruct (IH (iter_pos shr_1 p mrs)) as [N2 D2].
    split; [intros H; apply N2, N1, H|].
    rewrite D2, D1. lia.
  - split; [apply shr_1_nonneg | apply shr_1_digits].
Qed.

Lemma shr_noop (mrs : shr_record) (e n : Z) : n <= 0 -> shr mrs e n = (mrs, e).
Proof. destruct n; [reflexivity | lia | reflexivity]. Qed.

(** The second alignment of [binary_round_aux] does not depend on the
    binade, from the least exponent on. *)
Lemma shr_fexp_exact_shift (m e : Z) :
  -1074 <= e ->
  shr_fexp prec emax m (e + 1) loc_Exact =
    (fst (shr_fexp prec emax m e loc_Exact),
     snd (shr_fexp prec emax m e loc_Exact) + 1).
Proof.
  intros He. unfold shr_fexp. rewrite !fexp_eq.
  destruct (Z_le_gt_dec (Zdigits2 m - 53) (-1074 - e)) as [H|H].
  - rewrite !shr_noop by lia. reflexivity.
  - replace (Z.max (Zdigits2 m + (e + 1) - 53) (-1074) - (e + 1))
      with (Z.max (Zdigits2 m + e - 53) (-1074) - e) by lia.
    unfold shr. destruct (Z.max (Zdigits2 m + e - 53) (-1074) - e);
      cbn [fst snd]; f_equal; lia.
Qed.

(** The first alignment does not depend on the binade either, when the
    mantissa is rounded at the full precision or not shifted at all. *)
Lemma shr_fexp_shift (m e : Z) (l : location) :
  -1074 + 53 <= Zdigits2 m + e \/ fexp prec emax (Zdigits2 m + e) <= e ->
  shr_fexp prec emax m (e + 1) l =
    (fst (shr_fexp prec emax m e l), snd (shr_fexp prec emax m e l) + 1) /\
  -1074 <= snd (shr_fexp prec emax m e l).
Proof.
  intros H. unfold shr_fexp. rewrite !fexp_eq in *.
  destruct H as [H|H].
  - replace (Z.max (Zdigits2 m + (e + 1) - 53) (-1074) - (e + 1))
      with (Z.max (Zdigits2 m + e - 53) (-1074) - e) by lia.
    unfold shr.
    destruct (Z.max (Zdigits2 m + e - 53) (-1074) - e) eqn:E;
      cbn [fst snd]; (split; [f_equal; lia | lia]).
  - rewrite !shr_noop by lia. cbn [fst snd]. split; [reflexivity | lia].
Qed.

(** Rounding commutes with doubling. *)
Lemma binary_round_aux_shift (s : bool) (m e : Z) (l : location) :
  -1074 + 53 <= Zdigits2 m + e \/ fexp prec emax (Zdigits2 m + e) <= e ->
  binary_round_aux prec emax s m (e + 1) l =
    doubled (binary_round_aux prec emax s m e l).
Proof.
  intros H. unfold binary_round_aux.
  destruct (shr_fexp_shift m e l H) as [-> He1].
  destruct (shr_fexp prec emax m e l) as [mrs1 e1]. cbn [fst snd] in *.
  rewrite (shr_fexp_exact_shift _ e1 He1).
  destruct (shr_fexp prec emax _ e1 loc_Exact) as [mrs2 e2]. cbn [fst snd].
  destruct (shr_m mrs2); try reflexivity.
  unfold doubled.
  destruct (Z.leb_spec e2 (emax - prec)), (Z.leb_spec (e2 + 1) (emax - prec));
    try reflexivity; lia.
Qed.

(** A result above the least binade was not rounded at the fixed spacing
    of the subnormal numbers. *)
Lemma binary_round_aux_ample (s : bool) (m e : Z) (l : location)
      (s' : bool) (m' : positive) (e' : Z) :
  0 <= m ->
  binary_round_aux prec emax s m e l = S754_finite s' m' e' ->
  -1074 < e' ->
  -1074 + 53 <= Zdigits2 m + e \/ fexp prec emax (Zdigits2 m + e) <= e.
Proof.
  intros Hm Hres He'.
  destruct (Z_le_gt_dec (-1074 + 53) (Zdigits2 m + e)) as [|Hc]; [left; assumption|].
  destruct (Z_le_gt_dec (fexp prec emax (Zdigits2 m + e)) e) as [|Hn]; [right; assumption|].
  exfalso. rewrite fexp_eq in Hn.
  unfold binary_round_aux, shr_fexp in Hres. rewrite fexp_eq in Hres.
  replace (Z.max (Zdigits2 m + e - 53) (-1074) - e) with (-1074 - e) in Hres by lia.
  unfold shr at 1 in Hres.
  destruct (-1074 - e) as [|p|p] eqn:E; try lia.
  destruct (iter_shr_1 p (shr_record_of_loc m l)) as [N D].
  rewrite shr_m_of_loc in N, D. specialize (N Hm).
  set (mrs1 := iter_pos shr_1 p (shr_record_of_loc m l)) in *.
  set (mr := round_nearest_even (shr_m mrs1) (loc_of_shr_record mrs1)) in *.
  assert (Hd : Zdigits2 mr <= 53).
  { destruct (round_nearest_even_cases (shr_m mrs1) (loc_of_shr_record mrs1)) as [R|R];
      fold mr in R; rewrite R.
    - lia.
    - pose proof (Zdigits2_succ (shr_m mrs1) N). lia. }
  rewrite fexp_eq in Hres.
  rewrite shr_noop in Hres by lia.
  rewrite shr_m_of_loc in Hres.
  destruct mr; try discriminate.
  destruct (e + Z.pos p <=? emax - prec); try discriminate.
  injection Hres as _ _ <-. lia.
Qed.

Lemma binary_round_aux_doubled (s : bool) (m e : Z) (l : location)
      (s' : bool) (m' : positive) (e' : Z) :
  0 <= m ->
  binary_round_aux prec emax s m e l = S754_finite s' m' e' ->
  -1074 < e' ->
  binary_round_aux prec emax s m (e + 1) l = doubled (S754_finite s' m' e').
Proof.
  intros Hm Hres He'. rewrite <- Hres. apply binary_round_aux_shift.
  exact (binary_round_aux_ample s m e l s' m' e' Hm Hres He').
Qed.

(** ** Multiplication: [(2 x) * y = 2 (x * y)] *)

Lemma SFmul_doubled (sx : bool) (mx : positive) (ex : Z) (y : spec_float)
      (s' : bool) (m' : positive) (e' : Z) :
  SF64mul (S754_finite sx mx ex) y = S754_finite s' m' e' ->
  -1074 < e' ->
  SF64mul (S754_finite sx mx (ex + 1)) y = doubled (S754_finite s' m' e').
Proof.
  destruct y as [sy|sy| |sy my ey]; cbn [SF64mul SFmul]; try discriminate.
  intros Hres He'.
  replace (ex + 1 + ey) with (ex + ey + 1) by lia.
  apply binary_round_aux_doubled; [lia | exact Hres | exact He'].
Qed.

(** ** Division: [x / y = 2 (x / (2 y))] *)

Lemma SFdiv_core_binary_shift (m1 e1 m2 e2 : Z) :
  -1074 + 53 <= Zdigits2 m1 + e1 - (Zdigits2 m2 + (e2 + 1)) ->
  SFdiv_core_binary prec emax m1 e1 m2 e2 =
    let '(q, e, l) := SFdiv_core_binary prec emax m1 e1 m2 (e2 + 1) in
    (q, e + 1, l).
Proof.
  intros H. unfold SFdiv_core_binary. rewrite !fexp_eq.
  set (d1 := Zdigits2 m1) in *. set (d2 := Zdigits2 m2) in *.
  replace (Z.min (Z.max (d1 + e1 - (d2 + e2) - 53) (-1074)) (e1 - e2))
    with (Z.min (Z.max (d1 + e1 - (d2 + (e2 + 1)) - 53) (-1074)) (e1 - (e2 + 1)) + 1)
    by lia.
  set (e' := Z.min (Z.max (d1 + e1 - (d2 + (e2 + 1)) - 53) (-1074)) (e1 - (e2 + 1))).
  replace (e1 - e2 - (e' + 1)) with (e1 - (e2 + 1) - e') by lia.
  destruct (Z.div_eucl _ m2). reflexivity.
Qed.

Lemma SFdiv_core_binary_nonneg (m1 e1 m2 e2 : Z) :
  0 <= m1 -> 0 < m2 ->
  0 <= fst (fst (SFdiv_core_binary prec emax m1 e1 m2 e2)).
Proof.
  intros H1 H2. unfold SFdiv_core_binary.
  set (m' := match _ with Z0 => m1 | Zpos _ => _ | Zneg _ => 0 end).
  assert (Hm' : 0 <= m').
  { subst m'. destruct (e1 - e2 - _); [exact H1 | | lia].
    apply Z.shiftl_nonneg. exact H1. }
  pose proof (Z.div_pos m' m2 Hm' H2) as Hq. unfold Z.div in Hq.
  destruct (Z.div_eucl m' m2). exact Hq.
Qed.

Lemma SFdiv_doubled (sx : bool) (mx : positive) (ex : Z)
      (sy : bool) (my : positive) (ey : Z)
      (s' : bool) (m' : positive) (e' : Z) :
  SF64div (S754_finite sx mx ex) (S754_finite sy my (ey + 1)) =
    S754_finite s' m' e' ->
  -1074 < e' ->
  -1074 + 53 <= Z.pos (digits2_pos mx) + ex - (Z.pos (digits2_pos my) + (ey + 1)) ->
  SF64div (S754_finite sx mx ex) (S754_finite sy my ey) =
    doubled (S754_finite s' m' e').
Proof.
  cbn [SF64div SFdiv]. intros Hres He' Hx.
  rewrite (SFdiv_core_binary_shift (Z.pos mx) ex (Z.pos my) ey Hx).
  pose proof (SFdiv_core_binary_nonneg (Z.pos mx) ex (Z.pos my) (ey + 1)
                ltac:(lia) ltac:(lia)) as Hq.
  destruct (SFdiv_core_binary prec emax (Z.pos mx) ex (Z.pos my) (ey + 1))
    as [[q e] l]. cbn [fst] in Hq.
  apply binary_round_aux_doubled; assumption.
Qed.

(** ** Addition: [2 x + 2 y = 2 (x + y)] *)

Lemma digits2_pos_iter_xO (p d : positive) :
  Z.pos (digits2_pos (Pos.iter xO p d)) = Z.pos (digits2_pos p) + Z.pos d.
Proof.
  induction d as [|d IH] using Pos.peano_ind.
  - cbn. lia.
  - rewrite Pos.iter_succ. cbn [digits2_pos]. lia.
Qed.

(** A mantissa that needs no shift is kept as it is. *)
Lemma binary_round_aux_aligned (s : bool) (p : positive) (e : Z) :
  fexp prec emax (Z.pos (digits2_pos p) + e) <= e ->
  binary_round_aux prec emax s (Z.pos p) e loc_Exact =
    if e <=? emax - prec then S754_finite s p e else S754_infinity s.
Proof.
  intros H. unfold binary_round_aux, shr_fexp. cbn [Zdigits2].
  rewrite shr_noop by lia.
  cbn [shr_record_of_loc shr_m loc_of_shr_record round_nearest_even Zdigits2].
  rewrite shr_noop by lia. reflexivity.
Qed.

Lemma shl_align_shift (p : positive) (e e' : Z) :
  shl_align p (e + 1) (e' + 1) =
    (fst (shl_align p e e'), snd (shl_align p e e') + 1).
Proof.
  unfold shl_align. replace (e' + 1 - (e + 1)) with (e' - e) by lia.
  destruct (e' - e); reflexivity.
Qed.

Lemma binary_round_doubled (s : bool) (p : positive) (e : Z)
      (s' : bool) (m' : positive) (e' : Z) :
  binary_round prec emax s p e = S754_finite s' m' e' ->
  -1074 < e' ->
  binary_round prec emax s p (e + 1) = doubled (S754_finite s' m' e').
Proof.
  unfold binary_round. intros Hres He'.
  destruct (Z_le_gt_dec (-1074 + 53) (Z.pos (digits2_pos p) + e)) as [Hu|Hc].
  - replace (fexp prec emax (Z.pos (digits2_pos p) + (e + 1)))
      with (fexp prec emax (Z.pos (digits2_pos p) + e) + 1)
      by (rewrite !fexp_eq; lia).
    rewrite shl_align_shift.
    destruct (shl_align p e (fexp prec emax (Z.pos (digits2_pos p) + e)))
      as [mz ez]. cbn [fst snd].
    apply binary_round_aux_doubled; [lia | exact Hres | exact He'].
  - exfalso. rewrite fexp_eq in Hres.
    replace (Z.max (Z.pos (digits2_pos p) + e - 53) (-1074)) with (-1074) in Hres by lia.
    unfold shl_align in Hres.
    destruct (-1074 - e) as [|d|d] eqn:E.
    + rewrite binary_round_aux_aligned in Hres by (rewrite fexp_eq; lia).
      destruct (e <=? emax - prec); [|discriminate].
      injection Hres as _ _ <-. lia.
    + destruct (binary_round_aux_ample s (Z.pos p) e loc_Exact s' m' e'
                  ltac:(lia) Hres He') as [H|H].
      * cbn [Zdigits2] in H. lia.
      * cbn [Zdigits2] in H. rewrite fexp_eq in H. lia.
    + rewrite binary_round_aux_aligned in Hres
        by (rewrite digits2_pos_iter_xO, fexp_eq; lia).
      destruct (-1074 <=? emax - prec); [|discriminate].
      injection Hres as _ _ <-. lia.
Qed.

Lemma SFadd_doubled (sx : bool) (mx : positive) (ex : Z)
      (sy : bool) (my : positive) (ey : Z)
      (s' : bool) (m' : positive) (e' : Z) :
  SF64add (S754_finite sx mx ex) (S754_finite sy my ey) = S754_finite s' m' e' ->
  -1074 < e' ->
  SF64add (S754_finite sx mx (ex + 1)) (S754_finite sy my (ey + 1)) =
    doubled (S754_finite s' m' e').
Proof.
  cbn [SF64add SFadd]. intros Hres He'.
  replace (Z.min (ex + 1) (ey + 1)) with (Z.min ex ey + 1) by lia.
  rewrite !shl_align_shift. cbn [fst].
  set (M := cond_Zopp sx _ + cond_Zopp sy _) in *.
  unfold binary_normalize in *.
  destruct M as [|p|p]; [discriminate | |]; apply binary_round_doubled; assumption.
Qed.

(** ** Doubling: [1 * x = x] and [2 * x] is [x] doubled *)

Lemma SFmul_one (s : bool) (m : positive) (e : Z) :
  valid_binary (S754_finite s m e) = true ->
  SF64mul (Prim2SF 1) (S754_finite s m e) = S754_finite s m e.
Proof.
  cbn [valid_binary SpecFloat.valid_binary bounded canonical_mantissa].
  intros Hv. apply andb_prop in Hv. destruct Hv as [Hc Hb].
  apply Z.eqb_eq in Hc. apply Z.leb_le in Hb.
  change (Prim2SF 1) with (S754_finite false 4503599627370496 (-52)).
  cbn [SF64mul SFmul xorb].
  change (4503599627370496 * m)%positive with (Pos.iter xO m 52).
  unfold binary_round_aux, shr_fexp. cbn [Zdigits2].
  rewrite digits2_pos_iter_xO.
  replace (Z.pos (digits2_pos m) + 52 + (-52 + e)) with (Z.pos (digits2_pos m) + e) by lia.
  rewrite Hc. replace (e - (-52 + e)) with 52 by lia.
  change (shr (shr_record_of_loc (Z.pos (Pos.iter xO m 52)) loc_Exact) (-52 + e) 52)
    with ({| shr_m := Z.pos m; shr_r := false; shr_s := false |}, -52 + e + 52).
  cbn [shr_m loc_of_shr_record round_nearest_even Zdigits2 shr_record_of_loc].
  replace (-52 + e + 52) with e by lia.
  rewrite Hc, Z.sub_diag. cbn [shr shr_m].
  apply Z.leb_le in Hb. rewrite Hb. reflexivity.
Qed.

Lemma SFmul_two (s : bool) (m : positive) (e : Z) :
  valid_binary (S754_finite s m e) = true ->
  -1074 < e ->
  SF64mul (Prim2SF 2) (S754_finite s m e) = doubled (S754_finite s m e).
Proof.
  intros Hv He.
  change (Prim2SF 2) with (S754_finite false 4503599627370496 (-52 + 1)).
  apply SFmul_doubled; [|exact He].
  exact (SFmul_one s m e Hv).
Qed.

End Binary64Arithmetic.

(* ================================================================== *)
(** * Properties: the scene animator in binary64 *)
(* ================================================================== *)

Section Animator64.
Import Floats Binary64.

Variable Math_sin : float -> float.
Variable bodies : list CelestialBody.

(** An ample double is a finite one with its exponent in range. *)
Lemma ample_finite (x : float) :
  ample x = true ->
  exists s m e, Prim2SF x = S754_finite s m e /\ -1074 < e < 969.
Proof.
  unfold ample. destruct (Prim2SF x) as [| | |s m e]; try discriminate.
  intros H. apply andb_prop in H. destruct H as [H1 H2].
  apply Z.ltb_lt in H1, H2. exists s, m, e. split; [reflexivity|].
  change emin with (-1074) in H1. lia.
Qed.

Lemma doubled_finite (s : bool) (m : positive) (e : Z) :
  e < 969 -> doubled (S754_finite s m e) = S754_finite s m (e + 1).
Proof.
  intros He. unfold doubled.
  destruct (Z.leb_spec (e + 1) (emax - prec)) as [|H]; [reflexivity|].
  change (emax - prec) with 971 in H. lia.
Qed.

(** Above the least binade the mantissa of a double has 53 digits. *)
Lemma normal_digits (x : float) (s : bool) (m : positive) (e : Z) :
  Prim2SF x = S754_finite s m e -> -1074 < e -> Z.pos (digits2_pos m) = 53.
Proof.
  intros Hx He. pose proof (Prim2SF_valid x) as Hv. rewrite Hx in Hv.
  cbn [SpecFloat.valid_binary bounded canonical_mantissa] in Hv.
  apply andb_prop in Hv. destruct Hv as [Hc _]. apply Z.eqb_eq in Hc.
  rewrite fexp_eq in Hc. lia.
Qed.

(** [2 * x] is [x] doubled. *)
Lemma mul_two (x : float) :
  Prim2SF x = S754_zero false \/ ample x = true ->
  Prim2SF (2 * x) = doubled (Prim2SF x).
Proof.
  intros [Hz|Ha]; rewrite mul_spec.
  - rewrite Hz. reflexivity.
  - destruct (ample_finite x Ha) as (s & m & e & Hx & He).
    pose proof (Prim2SF_valid x) as Hv. rewrite Hx in *.
    apply SFmul_two; [exact Hv | lia].
Qed.

(** [(2 b) * c = 2 (b * c)]. *)
Lemma mul_doubled (a b c : float) :
  Prim2SF a = doubled (Prim2SF b) ->
  ample b = true -> ample (b * c) = true ->
  Prim2SF (a * c) = doubled (Prim2SF (b * c)).
Proof.
  intros Hab Hb Hbc.
  destruct (ample_finite b Hb) as (s & m & e & Eb & He).
  destruct (ample_finite (b * c) Hbc) as (s' & m' & e' & Ebc & He').
  rewrite Ebc. rewrite mul_spec in *. rewrite Hab, Eb in *.
  rewrite doubled_finite by lia.
  apply SFmul_doubled; [exact Ebc | lia].
Qed.

(** [1 / p = 2 (1 / (2 p))]. *)
Lemma div_doubled (p q : float) :
  Prim2SF q = doubled (Prim2SF p) ->
  ample p = true -> ample (1 / q) = true ->
  Prim2SF (1 / p) = doubled (Prim2SF (1 / q)).
Proof.
  intros Hqp Hp Hr.
  destruct (ample_finite p Hp) as (s & m & e & Ep & He).
  destruct (ample_finite (1 / q) Hr) as (s' & m' & e' & Er & He').
  rewrite Er. rewrite div_spec in *. rewrite Hqp, Ep in *.
  rewrite doubled_finite in Er by lia.
  change (Prim2SF 1) with (S754_finite false 4503599627370496 (-52)) in *.
  apply SFdiv_doubled; [exact Er | lia |].
  rewrite (normal_digits p s m e Ep) by lia.
  change (Z.pos (digits2_pos 4503599627370496)) with 53. lia.
Qed.

(** [2 b + 2 d = 2 (b + d)]. *)
Lemma add_doubled (a b c d : float) :
  Prim2SF a = doubled (Prim2SF b) ->
  Prim2SF c = doubled (Prim2SF d) ->
  Prim2SF b = S754_zero false \/ ample b = true ->
  ample d = true -> ample (b + d) = true ->
  Prim2SF (a + c) = doubled (Prim2SF (b + d)).
Proof.
  intros Hab Hcd Hb Hd Hbd.
  destruct (ample_finite d Hd) as (s2 & m2 & e2 & Ed & He2).
  destruct (ample_finite (b + d) Hbd) as (s' & m' & e' & Ebd & He').
  rewrite Ebd. rewrite add_spec in *. rewrite Hab, Hcd, Ed in *.
  rewrite (doubled_finite s2 m2 e2) by lia.
  destruct Hb as [Hz|Hb].
  - rewrite Hz in *. change (doubled (S754_zero false)) with (S754_zero false).
    cbn [SF64add SFadd] in *.
    injection Ebd as -> -> ->. rewrite doubled_finite by lia. reflexivity.
  - destruct (ample_finite b Hb) as (s1 & m1 & e1 & Eb & He1).
    rewrite Eb in *. rewrite doubled_finite by lia.
    apply SFadd_doubled; [exact Ebd | lia].
Qed.

Lemma period_doubled (bi bj : CelestialBody) :
  ample (period bi) = true -> period bj = (2 * period bi)%float ->
  Prim2SF (period bj) = doubled (Prim2SF (period bi)).
Proof. intros Ha ->. apply mul_two. right. exact Ha. Qed.

Lemma orbit64_length (bs : list CelestialBody) (pivots : list float) (dt : float) :
  List.length (orbit bs pivots dt) = List.length pivots.
Proof.
  revert pivots. induction bs as [|b bs IH]; intros [|y pivots];
    cbn [orbit List.length]; try reflexivity.
  now rewrite IH.
Qed.

Lemma orbit64_nth (bs : list CelestialBody) (dt : float) :
  forall (pivots : list float) (i : nat) (body : CelestialBody),
    nth_error bs i = Some body -> (i < List.length pivots)%nat ->
    nth i (orbit bs pivots dt) 0%float = (nth i pivots 0 + speed body * dt)%float.
Proof.
  induction bs as [|b bs IH]; intros pivots i body Hb Hi.
  - destruct i; discriminate Hb.
  - destruct pivots as [|y pivots]; [cbn in Hi; lia|].
    destruct i as [|i]; cbn [orbit nth].
    + cbn in Hb. injection Hb as ->. reflexivity.
    + cbn in Hb, Hi. apply IH; [exact Hb | lia].
Qed.

Lemma animate64_angle (flag : bool) (s : Scene) (i : nat) (body : CelestialBody) :
  nth_error bodies i = Some body -> (i < List.length (orbitPivots s))%nat ->
  angle i (animate Math_sin bodies flag s) =
    (angle i s + speed body * frameDelta flag)%float.
Proof.
  intros Hb Hi. unfold angle, animate. cbn [orbitPivots]. now apply orbit64_nth.
Qed.

Lemma animate64_pivots (flag : bool) (s : Scene) :
  List.length (orbitPivots (animate Math_sin bodies flag s)) =
  List.length (orbitPivots s).
Proof. unfold animate. cbn [orbitPivots]. apply orbit64_length. Qed.

Lemma built64_angle (i : nat) : angle i (built bodies) = 0%float.
Proof.
  unfold angle, built. cbn [orbitPivots].
  destruct (Nat.lt_ge_cases i (List.length bodies)) as [H|H].
  - destruct (nth_error bodies i) as [b|] eqn:E.
    + change 0%float with ((fun _ : CelestialBody => 0%float) b). apply map_nth.
    + apply nth_error_None in E. lia.
  - apply nth_overflow. rewrite length_map. exact H.
Qed.

(** A body with half the period turns at twice the speed. *)
Lemma speed_doubled (bi bj : CelestialBody) :
  ample (period bi) = true -> period bj = (2 * period bi)%float ->
  ample (1 / period bj) = true -> ample (speed bj) = true ->
  Prim2SF (speed bi) = doubled (Prim2SF (speed bj)).
Proof.
  intros Hp Hpj Hr Hs. unfold speed in *.
  apply mul_doubled; [|exact Hr | exact Hs].
  apply div_doubled; [apply period_doubled; assumption | exact Hp | exact Hr].
Qed.

(** Frame after frame, the angle of the faster body is the angle of the
    slower one, doubled. *)
Lemma frames64_doubled (bi bj : CelestialBody) (i j : nat) :
  nth_error bodies i = Some bi -> nth_error bodies j = Some bj ->
  ample (speed bj) = true ->
  Prim2SF (speed bi) = doubled (Prim2SF (speed bj)) ->
  forall (flags : list bool) (s : Scene),
    List.length (orbitPivots s) = List.length bodies ->
    Prim2SF (angle i s) = doubled (Prim2SF (angle j s)) ->
    Prim2SF (angle j s) = S754_zero false \/ ample (angle j s) = true ->
    forallb ample (map (fun flag => (speed bj * frameDelta flag)%float) flags) = true ->
    forallb ample (angles Math_sin bodies j flags s) = true ->
    let s' := frames Math_sin bodies flags s in
    Prim2SF (angle i s') = doubled (Prim2SF (angle j s')) /\
    (Prim2SF (angle j s') = S754_zero false \/ ample (angle j s') = true).
Proof.
  intros Hbi Hbj Hs Hsp. induction flags as [|flag flags IH];
    intros s Hlen Hd Hz Hinc Hang.
  - split; assumption.
  - cbn [map forallb angles] in Hinc, Hang.
    apply andb_prop in Hinc, Hang.
    destruct Hinc as [Hinc1 Hinc], Hang as [Hang1 Hang].
    assert (Hi : (i < List.length (orbitPivots s))%nat)
      by (rewrite Hlen; apply nth_error_Some; congruence).
    assert (Hj : (j < List.length (orbitPivots s))%nat)
      by (rewrite Hlen; apply nth_error_Some; congruence).
    change (frames Math_sin bodies (flag :: flags) s)
      with (frames Math_sin bodies flags (animate Math_sin bodies flag s)).
    apply IH.
    + rewrite animate64_pivots. exact Hlen.
    + rewrite (animate64_angle flag s i bi Hbi Hi).
      rewrite (animate64_angle flag s j bj Hbj Hj) in *.
      apply add_doubled; try assumption.
      apply mul_doubled; assumption.
    + right. exact Hang1.
    + exact Hinc.
    + exact Hang.
Qed.

(** The angles of two bodies, one with half the period of the other, over
    a run of frames. *)
Lemma frames64_twice (bi bj : CelestialBody) (i j : nat) (flags : list bool) :
  nth_error bodies i = Some bi -> nth_error bodies j = Some bj ->
  period bj = (2 * period bi)%float ->
  ample (period bi) = true ->
  forallb ample (computed Math_sin bodies j bj flags) = true ->
  angle i (frames Math_sin bodies flags (built bodies)) =
    (2 * angle j (frames Math_sin bodies flags (built bodies)))%float.
Proof.
  intros Hbi Hbj Hper Hp Hall. unfold computed in Hall.
  cbn [forallb] in Hall. rewrite forallb_app in Hall.
  apply andb_prop in Hall. destruct Hall as [Hr Hall].
  apply andb_prop in Hall. destruct Hall as [Hs Hall].
  apply andb_prop in Hall. destruct Hall as [Hinc Hang].
  pose proof (speed_doubled bi bj Hp Hper Hr Hs) as Hsp.
  destruct (frames64_doubled bi bj i j Hbi Hbj Hs Hsp flags (built bodies))
    as [Hd Hz]; try assumption.
  - unfold built. cbn [orbitPivots]. apply length_map.
  - rewrite !built64_angle. reflexivity.
  - left. rewrite built64_angle. reflexivity.
  - apply Prim2SF_inj. rewrite Hd. symmetry. apply mul_two. exact Hz.
Qed.

(** C8, amended.  A frame reads the flag and takes one of the two
    constants as its delta, which it adds to the accumulator.  The angle
    of each body becomes the rounded sum of its old value and the rounded
    product [(1 / orbitalPeriodHours) * SCALE * delta], so two frames
    with the same delta add the same product.  From the scene as built, a
    body with half the period of another has exactly twice its angle
    after any run of frames, as long as the numbers computed for the
    slower body are ample. *)
Theorem orbit_angle_binary64 :
  (forall flag : bool,
      frameDelta flag =
        (if flag then ANIMATION_SPEED_RUNNING else ANIMATION_SPEED_IDLE)) /\
  (forall (s : Scene) (flag : bool),
      t (animate Math_sin bodies flag s) = (t s + frameDelta flag)%float) /\
  (forall (s : Scene) (flag : bool) (i : nat) (body : CelestialBody),
      nth_error bodies i = Some body ->
      (i < List.length (orbitPivots s))%nat ->
      angle i (animate Math_sin bodies flag s) =
        (angle i s +
         (1 / period body) * ORBITAL_SPEED_SCALE * frameDelta flag)%float) /\
  (forall (s : Scene) (flag flag' : bool) (i : nat) (body : CelestialBody),
      nth_error bodies i = Some body ->
      (i < List.length (orbitPivots s))%nat ->
      frameDelta flag' = frameDelta flag ->
      let s1 := animate Math_sin bodies flag s in
      let s2 := animate Math_sin bodies flag' s1 in
      let product :=
        ((1 / period body) * ORBITAL_SPEED_SCALE * frameDelta flag)%float in
      angle i s1 = (angle i s + product)%float /\
      angle i s2 = (angle i s1 + product)%float) /\
  (forall (flags : list bool) (i j : nat) (bi bj : CelestialBody),
      nth_error bodies i = Some bi ->
      nth_error bodies j = Some bj ->
      period bj = (2 * period bi)%float ->
      ample (period bi) = true ->
      forallb ample (computed Math_sin bodies j bj flags) = true ->
      angle i (frames Math_sin bodies flags (built bodies)) =
        (2 * angle j (frames Math_sin bodies flags (built bodies)))%float).
Proof.
  split; [reflexivity|]. split; [reflexivity|]. split; [|split].
  - intros s flag i body Hb Hi. exact (animate64_angle flag s i body Hb Hi).
  - intros s flag flag' i body Hb Hi Hsame s1 s2 product. split.
    + exact (animate64_angle flag s i body Hb Hi).
    + unfold product. rewrite <- Hsame. apply animate64_angle; [exact Hb|].
      unfold s1. rewrite animate64_pivots. exact Hi.
  - intros flags i j bi bj. apply frames64_twice.
Qed.

End Animator64.

Lemma orbit_angle_binary64_witness :
  let sine := fun _ : PrimFloat.float => PrimFloat.zero in
  let sN := Binary64.frames sine Scenario.twins [true; false; true]
                            (Binary64.built Scenario.twins) in
  Binary64.angle 0 sN = PrimFloat.mul PrimFloat.two (Binary64.angle 1 sN).
Proof.
  intros sine sN.
  destruct (orbit_angle_binary64 sine Scenario.twins) as (_ & _ & _ & _ & H).
  apply (H [true; false; true] 0%nat 1%nat
           (nth 0 Scenario.twins Scenario.nobody)
           (nth 1 Scenario.twins Scenario.nobody)).
  - reflexivity.
  - reflexivity.
  - vm_compute. reflexivity.
  - vm_compute. reflexivity.
  - vm_compute. reflexivity.
Defined.

(** C8, as stated, fails on the table of the component.  With the
    timer running, the angle of Phobos never
    increases by the product of the three numbers: already the first
    increase is not the product in exact arithmetic, and the third is not
    even the product as binary64 computes it.  And the third and the
    fourth frame, with the same delta, raise the angle by different
    amounts.  The increases are measured exactly, on the rational values
    of the doubles. *)
Lemma orbit_increase_not_exact :
  let sine := fun _ : PrimFloat.float => PrimFloat.zero in
  let phobos := nth 0 CELESTIAL_BODIES Scenario.nobody in
  let a := fun k : nat =>
    Binary64.exact
      (Binary64.angle 0 (Binary64.frames sine CELESTIAL_BODIES (repeat true k)
                                         (Binary64.built CELESTIAL_BODIES))) in
  let product :=
    ((1 / orbitalPeriodHours phobos) * ThreeScene.ORBITAL_SPEED_SCALE
     * ThreeScene.frameDelta true)%Q in
  let product64 :=
    Binary64.exact
      (PrimFloat.mul (Binary64.speed phobos) (Binary64.frameDelta true)) in
  (~ a 1%nat - a 0%nat == product /\
   ~ a 3%nat - a 2%nat == product /\
   ~ a 3%nat - a 2%nat == product64 /\
   ~ a 4%nat - a 3%nat == product64 /\
   ~ a 4%nat - a 3%nat == a 3%nat - a 2%nat)%Q.
Proof.
  vm_compute. repeat split; discriminate.
Qed.


(* ================================================================== *)
(** * Further properties of the component, the display and the scene *)
(* ================================================================== *)

Section ComponentInvariants.
Import App.

Lemma onTick_bounds (now : Z) (s : State) :
  0 <= timeLeft s <= 300 -> 0 <= timeLeft (onTick now s) <= 300.
Proof.
  intros Hs. unfold onTick.
  destruct (timeLeft s <=? 1) eqn:Hle; cbn [timeLeft]; [lia|].
  apply Z.leb_gt in Hle. lia.
Qed.

(** What a millisecond can do to the timer state. *)
Lemma elapse_state (c : Component) :
  state (elapse c) = state c \/
  state (elapse c) = onTick (clock c + 1) (state c).
Proof.
  unfold elapse.
  set (c1 := mkComponent (state c) (option_map Z.succ (timerRef c))
                         (pollTimer c + 1) (clock c + 1)
                         (inFlight c) (fetchCount c)).
  set (c2 := if pollTimer c1 =? 40000 then onPoll (set_pollTimer 0 c1) else c1).
  assert (H2 : state c2 = state c /\ clock c2 = clock c + 1).
  { subst c2. destruct (pollTimer c1 =? 40000); [|split; reflexivity].
    destruct (onPoll_fields (set_pollTimer 0 c1)) as (Hs & _ & _ & Hk).
    rewrite Hs, Hk. split; reflexivity. }
  destruct H2 as [Hs Hk].
  destruct (timerRef c2) as [e|]; [|left; exact Hs].
  destruct (e =? 1000); [|left; exact Hs].
  right.
  destruct (update_fields (onTick (clock c2)) (set_timerRef (Some 0) c2))
    as (H & _).
  rewrite H. cbn [set_timerRef state]. rewrite Hs, Hk. reflexivity.
Qed.

Lemma settle_state (i : nat) (env : GenAI.Env) (c : Component) :
  state (settle i env c) = state c \/
  exists msg,
    state (settle i env c) =
      mkState (timeLeft (state c)) (status (state c))
              (addMessage (clock c) msg (Some msg_status) (messages (state c))).
Proof.
  unfold settle. destruct (nth_error (inFlight c) i) as [arg|]; [|left; reflexivity].
  destruct (fst (GeminiService.getRoboticStatus env arg)) as [msg|];
    [|left; reflexivity].
  right. exists msg.
  match goal with |- context [update ?f ?c'] =>
    destruct (update_fields f c') as (H & _); rewrite H end.
  reflexivity.
Qed.

Lemma settle_clock (i : nat) (env : GenAI.Env) (c : Component) :
  clock (settle i env c) = clock c.
Proof.
  unfold settle. destruct (nth_error (inFlight c) i) as [arg|]; [|reflexivity].
  destruct (fst (GeminiService.getRoboticStatus env arg)); reflexivity.
Qed.

Lemma handle_clock (e : Event) (c : Component) :
  clock c <= clock (handle e c).
Proof.
  destruct e; cbn [handle].
  - destruct (update_fields (toggleTimer (clock c)) c) as (_ & H & _). lia.
  - destruct (update_fields (resetTimer (clock c)) c) as (_ & H & _). lia.
  - rewrite elapse_clock. lia.
  - rewrite settle_clock. lia.
Qed.

(** What an event can do to the timer state: nothing, or one of the four
    updates of the component, stamped with the clock after the event. *)
Lemma handle_state (e : Event) (c : Component) :
  state (handle e c) = state c \/
  state (handle e c) = toggleTimer (clock (handle e c)) (state c) \/
  state (handle e c) = resetTimer (clock (handle e c)) (state c) \/
  state (handle e c) = onTick (clock (handle e c)) (state c) \/
  exists msg,
    state (handle e c) =
      mkState (timeLeft (state c)) (status (state c))
              (addMessage (clock (handle e c)) msg (Some msg_status)
                          (messages (state c))).
Proof.
  destruct e; cbn [handle].
  - right; left.
    destruct (update_fields (toggleTimer (clock c)) c) as (H & Hk & _).
    rewrite H, Hk. reflexivity.
  - right; right; left.
    destruct (update_fields (resetTimer (clock c)) c) as (H & Hk & _).
    rewrite H, Hk. reflexivity.
  - rewrite elapse_clock. destruct (elapse_state c) as [H|H]; [left|]; tauto.
  - rewrite settle_clock. destruct (settle_state i env c) as [H|H]; [left|]; tauto.
Qed.

Lemma handle_bounds (e : Event) (c : Component) :
  0 <= timeLeft (state c) <= 300 ->
  0 <= timeLeft (state (handle e c)) <= 300.
Proof.
  intros Hb.
  destruct (handle_state e c) as [H|[H|[H|[H|[msg H]]]]]; rewrite H.
  - exact Hb.
  - unfold toggleTimer.
    destruct (TimerStatus_eqb (status (state c)) RUNNING); cbn [timeLeft]; exact Hb.
  - unfold resetTimer, INITIAL_TIME. cbn [timeLeft]. lia.
  - apply onTick_bounds, Hb.
  - cbn [timeLeft]. exact Hb.
Qed.

Lemma firstn_In {A : Type} (n : nat) (l : list A) (a : A) :
  In a (firstn n l) -> In a l.
Proof.
  intros H. rewrite <- (firstn_skipn n l). apply in_or_app. left. exact H.
Qed.

Lemma firstn_StronglySorted {A : Type} (R : A -> A -> Prop) (n : nat) (l : list A) :
  StronglySorted R l -> StronglySorted R (firstn n l).
Proof.
  intros Hs. revert n. induction Hs as [|a l Hs IH Hall]; intros [|n];
    cbn [firstn]; try constructor.
  - apply IH.
  - apply Forall_forall. intros b Hb. apply firstn_In in Hb.
    rewrite Forall_forall in Hall. apply Hall, Hb.
Qed.

Lemma firstn_Forall {A : Type} (P : A -> Prop) (n : nat) (l : list A) :
  Forall P l -> Forall P (firstn n l).
Proof.
  intros H. apply Forall_forall. intros b Hb. apply firstn_In in Hb.
  rewrite Forall_forall in H. apply H, Hb.
Qed.

(** An insertion stamped no earlier than the log keeps the log in order. *)
Lemma addMessage_log (now : Z) (txt : string) (ty : option MessageType)
                     (log : list RobotMessage) :
  (List.length log <= 10)%nat /\ newestFirst log /\ stampedBy now log ->
  (List.length (addMessage now txt ty log) <= 10)%nat /\
  newestFirst (addMessage now txt ty log) /\
  stampedBy now (addMessage now txt ty log).
Proof.
  intros (_ & Hs & Hn). unfold addMessage. split; [apply firstn_le_length|].
  split.
  - apply firstn_StronglySorted. constructor; [exact Hs|].
    cbn [timestamp]. exact Hn.
  - apply firstn_Forall. constructor; [cbn [timestamp]; lia | exact Hn].
Qed.

Lemma stampedBy_later (now later : Z) (log : list RobotMessage) :
  now <= later -> stampedBy now log -> stampedBy later log.
Proof.
  intros Hle H. unfold stampedBy in *. rewrite Forall_forall in *.
  intros m Hm. specialize (H m Hm). lia.
Qed.

Lemma handle_log (e : Event) (c : Component) :
  (List.length (messages (state c)) <= 10)%nat /\
  newestFirst (messages (state c)) /\
  stampedBy (clock c) (messages (state c)) ->
  (List.length (messages (state (handle e c))) <= 10)%nat /\
  newestFirst (messages (state (handle e c))) /\
  stampedBy (clock (handle e c)) (messages (state (handle e c))).
Proof.
  intros (Hl & Hs & Hn).
  pose proof (handle_clock e c) as Hk.
  assert (Hlater : (List.length (messages (state c)) <= 10)%nat /\
                   newestFirst (messages (state c)) /\
                   stampedBy (clock (handle e c)) (messages (state c)))
    by (repeat split; try assumption; eapply stampedBy_later; eassumption).
  destruct (handle_state e c) as [H|[H|[H|[H|[msg H]]]]]; rewrite H.
  - exact Hlater.
  - unfold toggleTimer.
    destruct (TimerStatus_eqb (status (state c)) RUNNING); cbn [messages];
      apply addMessage_log, Hlater.
  - unfold resetTimer. cbn [messages]. apply addMessage_log, Hlater.
  - unfold onTick. destruct (timeLeft (state c) <=? 1); cbn [messages];
      [apply addMessage_log, Hlater | exact Hlater].
  - cbn [messages]. apply addMessage_log, Hlater.
Qed.

Lemma play_bounds (events : list Event) (now : Z) :
  0 <= timeLeft (state (play events (mount now))) <= 300.
Proof.
  induction events as [|e events IH] using rev_ind.
  - unfold play, mount, initial, INITIAL_TIME. cbn [fold_left state timeLeft]. lia.
  - rewrite play_snoc. apply handle_bounds, IH.
Qed.

Lemma play_log (events : list Event) (now : Z) :
  let c := play events (mount now) in
  (List.length (messages (state c)) <= 10)%nat /\
  newestFirst (messages (state c)) /\
  stampedBy (clock c) (messages (state c)).
Proof.
  cbv zeta. induction events as [|e events IH] using rev_ind.
  - unfold play, mount, initial.
    cbn [fold_left state messages clock List.length].
    split; [lia|]. split; constructor.
  - rewrite play_snoc. apply handle_log, IH.
Qed.

Lemma play_clock (events : list Event) (now : Z) :
  now <= clock (play events (mount now)).
Proof.
  induction events as [|e events IH] using rev_ind; [cbn; lia|].
  rewrite play_snoc. pose proof (handle_clock e (play events (mount now))). lia.
Qed.

(** X1.  In every run of the component from its mount, [timeLeft] stays
    between 0 and 300, the log holds at most ten entries, no entry of the
    log is stamped later than the entry before it, and no entry is stamped
    later than the current time. *)
Theorem component_state_invariants :
  forall (events : list Event) (now : Z),
    let c := play events (mount now) in
    0 <= timeLeft (state c) <= 300 /\
    (List.length (messages (state c)) <= 10)%nat /\
    newestFirst (messages (state c)) /\
    stampedBy (clock c) (messages (state c)) /\
    now <= clock c.
Proof.
  intros events now c.
  split; [apply play_bounds|].
  destruct (play_log events now) as (Hl & Hs & Hn). fold c in Hl, Hs, Hn.
  split; [exact Hl|]. split; [exact Hs|]. split; [exact Hn|].
  apply play_clock.
Qed.

(** X2.  In every run of the component from its mount, the 40-second
    interval is less than 40 seconds old, and a one-second interval is live
    exactly when the timer is [RUNNING] with time left; a live one is less
    than a second old and of the same age as the 40-second interval. *)
Theorem intervals_in_step :
  forall (events : list Event) (now : Z),
    let c := play events (mount now) in
    0 <= pollTimer c < 40000 /\
    match timerRef c with
    | Some e =>
        status (state c) = RUNNING /\ 0 < timeLeft (state c) /\
        0 <= e < 1000 /\ pollTimer c = e
    | None => ~ (status (state c) = RUNNING /\ 0 < timeLeft (state c))
    end.
Proof.
  intros events now c. destruct (play_coherent events now) as [Hp Hc].
  fold c in Hp, Hc. split; [exact Hp|].
  destruct (timerRef c) as [e|].
  - destruct Hc as (Ht & He & Hpe). apply ticking_spec in Ht. tauto.
  - intros H. apply ticking_spec in H. congruence.
Qed.

End ComponentInvariants.

Section PollAndPause.
Import App.

(** The calls in flight after an event: as before, one more, or one less. *)
Lemma handle_inFlight (e : Event) (c : Component) :
  inFlight (handle e c) = inFlight c \/
  (fetchCount (handle e c) = S (fetchCount c) /\
   inFlight (handle e c) = (inFlight c ++ [timeLeft (state c)])%list) \/
  exists i, inFlight (handle e c) =
            (firstn i (inFlight c) ++ skipn (S i) (inFlight c))%list.
Proof.
  destruct e; cbn [handle].
  - left. apply update_fields.
  - left. apply update_fields.
  - unfold elapse.
    set (c1 := mkComponent (state c) (option_map Z.succ (timerRef c))
                           (pollTimer c + 1) (clock c + 1)
                           (inFlight c) (fetchCount c)).
    set (c2 := if pollTimer c1 =? 40000 then onPoll (set_pollTimer 0 c1) else c1).
    assert (H2 : (inFlight c2 = inFlight c /\ fetchCount c2 = fetchCount c) \/
                 (fetchCount c2 = S (fetchCount c) /\
                  inFlight c2 = (inFlight c ++ [timeLeft (state c)])%list)).
    { subst c2. destruct (pollTimer c1 =? 40000); [|left; split; reflexivity].
      unfold onPoll, fetchAIStatus. cbn [set_pollTimer state c1].
      destruct (TimerStatus_eqb (status (state c)) RUNNING);
        [right | left]; split; reflexivity. }
    assert (H3 : forall c3, inFlight c3 = inFlight c2 ->
                            fetchCount c3 = fetchCount c2 ->
                 inFlight c3 = inFlight c \/
                 (fetchCount c3 = S (fetchCount c) /\
                  inFlight c3 = (inFlight c ++ [timeLeft (state c)])%list)).
    { intros c3 Hi Hf. rewrite Hi, Hf. tauto. }
    destruct (timerRef c2) as [e|].
    + destruct (e =? 1000).
      * destruct (update_fields (onTick (clock c2)) (set_timerRef (Some 0) c2))
          as (_ & _ & Hi & Hf).
        destruct (H3 _ Hi Hf) as [H|H]; tauto.
      * destruct (H3 c2 eq_refl eq_refl) as [H|H]; tauto.
    + destruct (H3 c2 eq_refl eq_refl) as [H|H]; tauto.
  - unfold settle. destruct (nth_error (inFlight c) i) as [arg|]; [|left; reflexivity].
    right; right. exists i.
    destruct (fst (GeminiService.getRoboticStatus env arg)); [|reflexivity].
    match goal with |- context [update ?f ?c'] =>
      destruct (update_fields f c') as (_ & _ & H & _); rewrite H end.
    reflexivity.
Qed.

Lemma Forall_remove {A : Type} (P : A -> Prop) (i : nat) (l : list A) :
  Forall P l -> Forall P (firstn i l ++ skipn (S i) l).
Proof.
  intros H. rewrite Forall_forall in *. intros a Ha.
  apply in_app_or in Ha. destruct Ha as [Ha|Ha].
  - apply H. rewrite <- (firstn_skipn i l). apply in_or_app. tauto.
  - apply H. rewrite <- (firstn_skipn (S i) l). apply in_or_app. tauto.
Qed.

(** X3.  In every run of the component from its mount, each call in
    flight was made with [timeLeft = 0]; and an event that makes the
    component call the fetcher is the millisecond in which the 40-second
    interval fires while the timer is [RUNNING] with 0 seconds left and no
    one-second interval is live. *)
Theorem fetch_only_at_zero :
  forall (events : list Event) (now : Z) (e : Event),
    let c := play events (mount now) in
    Forall (fun arg => arg = 0) (inFlight c) /\
    (fetchCount (handle e c) <> fetchCount c ->
     e = ms /\ status (state c) = RUNNING /\ timeLeft (state c) = 0 /\
     pollTimer c = 39999 /\ timerRef c = None).
Proof.
  intros events now e c.
  assert (Hstep : forall c0 e0,
             coherent c0 -> 0 <= timeLeft (state c0) <= 300 ->
             fetchCount (handle e0 c0) <> fetchCount c0 ->
             e0 = ms /\ status (state c0) = RUNNING /\ timeLeft (state c0) = 0 /\
             pollTimer c0 = 39999 /\ timerRef c0 = None).
  { intros c0 e0 Hc Hb Hne.
    destruct (fetch_needs_stalled_timer e0 c0 Hc Hne) as (-> & Hs & Hz).
    split; [reflexivity|]. split; [exact Hs|]. split; [lia|].
    cbn [handle] in Hne.
    destruct (timerRef c0) as [e0|] eqn:He.
    - exfalso. apply Hne. rewrite (elapse_live c0 e0 Hc He).
      destruct (e0 + 1 =? 1000); reflexivity.
    - split; [|reflexivity]. rewrite (elapse_stopped c0 He) in Hne.
      destruct (pollTimer c0 + 1 =? 40000) eqn:E.
      + apply Z.eqb_eq in E. lia.
      + exfalso. apply Hne. reflexivity. }
  split.
  - subst c. induction events as [|e1 events IH] using rev_ind; [constructor|].
    rewrite play_snoc.
    set (c0 := play events (mount now)) in *.
    destruct (handle_inFlight e1 c0) as [H|[[Hf H]|[i H]]]; rewrite H.
    + exact IH.
    + apply Forall_app. split; [exact IH|]. constructor; [|constructor].
      apply (Hstep c0 e1 (play_coherent events now) (play_bounds events now)).
      rewrite Hf. lia.
    + apply Forall_remove, IH.
  - apply Hstep; [apply play_coherent | apply play_bounds].
Qed.

Lemma fetch_only_at_zero_witness :
  let c := play Scenario.stalling (mount 0) in
  status (state c) = RUNNING /\ timeLeft (state c) = 0 /\
  fetchCount (handle ms c) = 1%nat /\ inFlight (handle ms c) = [0].
Proof.
  intros c.
  assert (Hne : fetchCount (handle ms c) <> fetchCount c)
    by (vm_compute; discriminate).
  destruct (fetch_only_at_zero Scenario.stalling 0 ms) as (_ & H).
  destruct (H Hne) as (_ & Hs & Hz & _).
  split; [exact Hs|]. split; [exact Hz|]. vm_compute. split; reflexivity.
Defined.

(** A component whose timer is not running does not change with time,
    apart from its clock and the age of the 40-second interval. *)
Lemma idle_not_running (n : nat) (c : Component) :
  coherent c -> status (state c) <> RUNNING ->
  state (idle n c) = state c /\ timerRef (idle n c) = None /\
  inFlight (idle n c) = inFlight c /\ fetchCount (idle n c) = fetchCount c.
Proof.
  intros Hc Hs.
  assert (Hr : timerRef c = None).
  { destruct Hc as [_ Hc]. destruct (timerRef c); [|reflexivity].
    destruct Hc as (Ht & _). apply ticking_spec in Ht. tauto. }
  induction n as [|n (IHs & IHr & IHi & IHf)].
  - repeat split. exact Hr.
  - rewrite idle_S, (elapse_stopped _ IHr).
    destruct (pollTimer (idle n c) + 1 =? 40000).
    + rewrite onPoll_not_running by (cbn [state]; rewrite IHs; exact Hs).
      cbn [state timerRef inFlight fetchCount]. repeat split; assumption.
    + cbn [state timerRef inFlight fetchCount]. repeat split; assumption.
Qed.

(** X4.  In a component reached from its mount whose timer is not
    [RUNNING], the passing of time changes neither the timer state nor the
    log, and brings no call of the fetcher: only the clock moves. *)
Theorem stopped_timer_frozen :
  forall (events : list Event) (now : Z) (n : nat),
    let c := play events (mount now) in
    status (state c) <> RUNNING ->
    state (idle n c) = state c /\
    inFlight (idle n c) = inFlight c /\
    fetchCount (idle n c) = fetchCount c /\
    clock (idle n c) = clock c + Z.of_nat n.
Proof.
  intros events now n c Hs.
  destruct (idle_not_running n c (play_coherent events now) Hs)
    as (H1 & _ & H3 & H4).
  repeat split; try assumption. apply idle_clock.
Qed.

Lemma stopped_timer_frozen_witness :
  state (idle 5000 (play [click_toggle; ms; ms; click_toggle] (mount 0))) =
  state (play [click_toggle; ms; ms; click_toggle] (mount 0)).
Proof.
  apply (stopped_timer_frozen [click_toggle; ms; ms; click_toggle] 0 5000).
  vm_compute. discriminate.
Defined.

Lemma toggle_fields (c : Component) :
  let c1 := handle click_toggle c in
  state c1 = toggleTimer (clock c) (state c) /\
  timerRef c1 = timerEffect (toggleTimer (clock c) (state c)) /\
  pollTimer c1 = 0 /\ clock c1 = clock c /\
  inFlight c1 = inFlight c /\ fetchCount c1 = fetchCount c.
Proof.
  cbv zeta. cbn [handle]. unfold update. rewrite commit_fresh.
  - cbn [set_state state timerRef pollTimer clock inFlight fetchCount].
    repeat split.
  - apply reruns_true. left. cbn [set_state state]. unfold toggleTimer.
    destruct (status (state c)); cbn; discriminate.
Qed.

(** X5.  Pausing and resuming a running timer keeps [timeLeft] and
    installs a new one-second interval: the part of the current second
    that had elapsed is lost, so for less than a full second after the
    resume [timeLeft] is unchanged, whereas without the pause it would
    have dropped at the end of the second under way. *)
Theorem pause_resume_restarts_second :
  forall (c : Component) (e : Z) (k : nat),
    coherent c -> timerRef c = Some e -> Z.of_nat k < 1000 ->
    let resumed := handle click_toggle (handle click_toggle c) in
    status (state resumed) = RUNNING /\
    timeLeft (state resumed) = timeLeft (state c) /\
    timerRef resumed = Some 0 /\
    timeLeft (state (idle k resumed)) = timeLeft (state c) /\
    timeLeft (state (idle (S (Z.to_nat (999 - e))) c)) < timeLeft (state c).
Proof.
  intros c e k Hc He Hk resumed.
  destruct Hc as [Hp Hc0]. pose proof (conj Hp Hc0) as Hc.
  rewrite He in Hc0. destruct Hc0 as (Ht & Hr & Hpe).
  apply ticking_spec in Ht as Hrt. destruct Hrt as [Hrun Hpos].
  destruct (toggle_fields c) as (Hs1 & Hr1 & _).
  destruct (toggle_fields (handle click_toggle c)) as (Hs2 & Hr2 & Hp2 & _).
  fold resumed in Hs2, Hr2, Hp2.
  assert (Hst : status (state resumed) = RUNNING /\
                timeLeft (state resumed) = timeLeft (state c)).
  { rewrite Hs2, Hs1. unfold toggleTimer. rewrite Hrun. cbn. split; reflexivity. }
  destruct Hst as [Hsr Htr].
  assert (Href : timerRef resumed = Some 0).
  { rewrite Hr2. unfold timerEffect.
    replace (ticking (toggleTimer (clock (handle click_toggle c))
                                  (state (handle click_toggle c)))) with true;
      [reflexivity|].
    symmetry. rewrite <- Hs2. apply ticking_spec. split; [exact Hsr | lia]. }
  assert (Hcr : coherent resumed)
    by (unfold resumed; do 2 apply handle_coherent; exact Hc).
  split; [exact Hsr|]. split; [exact Htr|]. split; [exact Href|]. split.
  - rewrite (idle_live k resumed 0 Hcr Href ltac:(lia)). cbn [state]. exact Htr.
  - rewrite idle_S.
    pose proof (idle_coherent (Z.to_nat (999 - e)) c Hc) as Hck.
    rewrite (idle_live (Z.to_nat (999 - e)) c e Hc He ltac:(lia)) in *.
    rewrite (elapse_live _ _ Hck eq_refl).
    replace (e + Z.of_nat (Z.to_nat (999 - e)) + 1 =? 1000) with true
      by (symmetry; apply Z.eqb_eq; lia).
    cbn [state]. unfold onTick.
    destruct (timeLeft (state c) <=? 1) eqn:Hle; cbn [timeLeft]; [lia|].
    lia.
Qed.

Lemma pause_resume_restarts_second_witness :
  timerRef Scenario.midSecond = Some 400 /\
  timeLeft (state (idle 999
     (handle click_toggle (handle click_toggle Scenario.midSecond)))) = 300 /\
  timeLeft (state (idle 600 Scenario.midSecond)) < 300.
Proof.
  split; [vm_compute; reflexivity|].
  assert (Hc : coherent Scenario.midSecond)
    by (unfold coherent; vm_compute; repeat split; discriminate).
  destruct (pause_resume_restarts_second Scenario.midSecond 400 999 Hc
              ltac:(vm_compute; reflexivity) ltac:(vm_compute; reflexivity))
    as (_ & _ & _ & H4 & H5).
  split; [exact H4 | exact H5].
Defined.

End PollAndPause.

Section ResetAndSettle.
Import App.

(** X6.  The settlement of a call in flight leaves [timeLeft], [status],
    both intervals and the count of calls alone.  With an index that names
    no call it does nothing.  Otherwise it removes that call and puts one
    entry of type [status], stamped with the current time, in front of
    the log, whatever the status of the timer is by then. *)
Theorem settle_only_logs :
  forall (c : Component) (i : nat) (env : GenAI.Env),
    let c' := settle i env c in
    timeLeft (state c') = timeLeft (state c) /\
    status (state c') = status (state c) /\
    timerRef c' = timerRef c /\ pollTimer c' = pollTimer c /\
    fetchCount c' = fetchCount c /\
    ((List.length (inFlight c) <= i)%nat -> c' = c) /\
    ((i < List.length (inFlight c))%nat ->
     S (List.length (inFlight c')) = List.length (inFlight c) /\
     exists msg,
       messages (state c') =
         mkRobotMessage msg msg_status (clock c) :: firstn 9 (messages (state c))).
Proof.
  intros c i env c'. subst c'. unfold settle.
  destruct (nth_error (inFlight c) i) as [arg|] eqn:Hnth.
  - destruct (getRoboticStatus_fulfils env arg) as [msg Hmsg]. rewrite Hmsg.
    unfold update. rewrite commit_same.
    + cbn [set_state state timeLeft status timerRef pollTimer fetchCount inFlight messages].
      do 5 (split; [reflexivity|]). split.
      * intros Hle. apply nth_error_None in Hle. congruence.
      * intros Hlt. split.
        -- rewrite length_app, length_firstn, length_skipn. lia.
        -- exists msg. reflexivity.
    + cbn [set_state state]. unfold timerEffect_reruns. cbn [status timeLeft].
      destruct (status (state c)); cbn; rewrite Z.eqb_refl; reflexivity.
  - do 5 (split; [reflexivity|]). split; [reflexivity|].
    intros Hlt. apply nth_error_Some in Hlt. congruence.
Qed.

Lemma settle_only_logs_witness :
  status (state Scenario.polled) = RUNNING /\
  inFlight Scenario.polled = [0] /\
  map type (messages (state (settle 0 Scenario.no_credential
                                (handle click_reset Scenario.polled)))) =
    [msg_status; msg_info; msg_info; msg_alert; msg_info] /\
  status (state (settle 0 Scenario.no_credential
                   (handle click_reset Scenario.polled))) = IDLE.
Proof.
  split; [vm_compute; reflexivity|]. split; [vm_compute; reflexivity|].
  destruct (settle_only_logs (handle click_reset Scenario.polled) 0
              Scenario.no_credential) as (_ & Hs & _ & _ & _ & _ & Hlog).
  destruct (Hlog ltac:(vm_compute; lia)) as (_ & msg & Hm).
  split.
  - rewrite Hm. vm_compute. reflexivity.
  - rewrite Hs. vm_compute. reflexivity.
Defined.

(** X7.  A reset of a coherent component, whatever its state, gives
    [IDLE] with 300 seconds and no one-second interval, and time leaves
    it so; the calls in flight are kept, not cancelled. *)
Theorem reset_from_any_state :
  forall (c : Component) (n : nat),
    coherent c ->
    let c1 := handle click_reset c in
    timeLeft (state c1) = 300 /\ status (state c1) = IDLE /\
    timerRef c1 = None /\
    inFlight c1 = inFlight c /\
    timeLeft (state (idle n c1)) = 300 /\ status (state (idle n c1)) = IDLE.
Proof.
  intros c n Hc c1.
  assert (Hst : state c1 = resetTimer (clock c) (state c))
    by (apply update_fields).
  assert (Hc1 : coherent c1) by (apply handle_coherent, Hc).
  assert (Hidle : status (state c1) <> RUNNING)
    by (rewrite Hst; cbn; discriminate).
  destruct (idle_not_running n c1 Hc1 Hidle) as (Hs & _).
  destruct (idle_not_running 0 c1 Hc1 Hidle) as (_ & Hr & _).
  rewrite Hs, Hst. cbn [resetTimer timeLeft status].
  split; [reflexivity|]. split; [reflexivity|]. split; [exact Hr|].
  split; [apply update_fields|]. split; reflexivity.
Qed.

Lemma reset_from_any_state_witness :
  timeLeft (state (idle 2500 (handle click_reset Scenario.midSecond))) = 300 /\
  status (state (idle 2500 (handle click_reset Scenario.midSecond))) = IDLE.
Proof.
  assert (Hc : coherent Scenario.midSecond)
    by (unfold coherent; vm_compute; repeat split; discriminate).
  destruct (reset_from_any_state Scenario.midSecond 2500 Hc)
    as (_ & _ & _ & _ & H5 & H6).
  split; [exact H5 | exact H6].
Defined.

End ResetAndSettle.

Section WallClock.
Import App.

Lemma idle_add (n m : nat) (c : Component) :
  idle (n + m) c = idle n (idle m c).
Proof. unfold idle. apply Nat.iter_add. Qed.

Lemma seconds_as_idle (q : nat) (c : Component) :
  seconds q c = idle (q * 1000) c.
Proof.
  induction q as [|q IH]; [reflexivity|].
  change (seconds (S q) c) with (idle 1000 (seconds q c)).
  rewrite IH, <- idle_add. reflexivity.
Qed.

(** Less than a second after a render that installed the intervals, the
    timer state is still the one of that render. *)
Lemma idle_within_second (r : nat) (c : Component) :
  coherent c -> (forall e, timerRef c = Some e -> e = 0) ->
  Z.of_nat r < 1000 ->
  state (idle r c) = state c.
Proof.
  intros Hc Hnew Hr. destruct (timerRef c) as [e|] eqn:He.
  - rewrite (Hnew e eq_refl) in He.
    rewrite (idle_live r c 0 Hc He ltac:(lia)). reflexivity.
  - apply idle_stopped, He.
Qed.

Lemma nth_stamps (now : Z) (q i : nat) :
  (i < q)%nat ->
  nth i (map (fun k => now + 1000 * Z.of_nat k) (seq 1 q)) 0 =
  now + 1000 * Z.of_nat (S i).
Proof.
  intros Hi. set (f := fun k => now + 1000 * Z.of_nat k).
  rewrite (nth_indep _ 0 (f 0%nat))
    by (rewrite length_map, length_seq; exact Hi).
  rewrite (map_nth f), seq_nth by exact Hi. reflexivity.
Qed.

(** With renders that take no time and timers that fire on the
    millisecond: from a render that installed the one-second interval with
    [k] seconds left, after [n] milliseconds the timer shows
    [max 0 (k - n / 1000)] seconds. *)
Lemma idle_wall_clock :
  forall (c : Component) (n : nat),
    coherent c -> timerRef c = Some 0 ->
    let k := timeLeft (state c) in
    let c' := idle n c in
    timeLeft (state c') = Z.max 0 (k - Z.of_nat n / 1000) /\
    status (state c') =
      (if Z.of_nat n <? 1000 * k then RUNNING else COMPLETED) /\
    messages (state c') =
      (if Z.of_nat n <? 1000 * k then messages (state c)
       else addMessage (clock c + 1000 * k) completionText (Some msg_alert)
                       (messages (state c))).
Proof.
  intros c n Hc He k c'.
  assert (Hnew : forall e, timerRef c = Some e -> e = 0) by (intros e; congruence).
  destruct Hc as [Hp Hc0]. pose proof (conj Hp Hc0) as Hc.
  rewrite He in Hc0. destruct Hc0 as (Ht & _).
  apply ticking_spec in Ht. destruct Ht as [Hrun Hpos]. fold k in Hpos.
  pose proof (Nat.div_mod_eq n 1000) as Hdm.
  set (q := (n / 1000)%nat) in *. set (r := (n mod 1000)%nat) in *.
  assert (Hr : Z.of_nat r < 1000).
  { subst r. pose proof (Nat.mod_upper_bound n 1000 ltac:(discriminate)) as H.
    apply Nat2Z.inj_lt in H. exact H. }
  assert (Hq : Z.of_nat n / 1000 = Z.of_nat q).
  { subst q. rewrite Nat2Z.inj_div. reflexivity. }
  assert (Hn : Z.of_nat n = 1000 * Z.of_nat q + Z.of_nat r).
  { rewrite Hdm at 1. rewrite Nat2Z.inj_add, Nat2Z.inj_mul. reflexivity. }
  destruct (seconds_are_ticks q c Hc Hnew) as (Hcq & Hnewq & _ & Hsq).
  assert (Hstate : state c' = state (seconds q c)).
  { subst c'. rewrite Hdm.
    replace (1000 * q + r)%nat with (r + q * 1000)%nat by lia.
    rewrite idle_add, <- seconds_as_idle.
    apply idle_within_second; assumption. }
  rewrite Hstate, Hsq.
  pose proof (ticks_running
                (map (fun j => clock c + 1000 * Z.of_nat j) (seq 1 q))
                (state c) Hrun ltac:(fold k; lia)) as Hticks.
  cbv zeta in Hticks. rewrite length_map, length_seq in Hticks. fold k in Hticks.
  destruct Hticks as (H1 & H2 & H3).
  rewrite H1, H2, H3, Hq.
  replace (Z.of_nat n <? 1000 * k) with (Z.of_nat q <? k)
    by (destruct (Z.ltb_spec (Z.of_nat q) k);
        symmetry; [apply Z.ltb_lt | apply Z.ltb_ge]; lia).
  split; [reflexivity|]. split; [reflexivity|].
  destruct (Z.ltb_spec (Z.of_nat q) k) as [Hlt|Hge]; [reflexivity|].
  rewrite nth_stamps by lia.
  f_equal. lia.
Qed.

(** X8.  The countdown is never ahead of the clock.  From a render that
    installed the one-second interval with [k] seconds left, after [n]
    milliseconds at least [max 0 (k - n / 1000)] seconds are left and
    never more than [k]; and before [1000 * k] milliseconds the timer is
    still [RUNNING] with time left and the log is untouched. *)
Theorem countdown_not_ahead_of_clock :
  forall (c : Component) (n : nat),
    coherent c -> timerRef c = Some 0 ->
    let k := timeLeft (state c) in
    let c' := idle n c in
    Z.max 0 (k - Z.of_nat n / 1000) <= timeLeft (state c') <= k /\
    (Z.of_nat n < 1000 * k ->
     status (state c') = RUNNING /\ 0 < timeLeft (state c') /\
     messages (state c') = messages (state c)).
Proof.
  intros c n Hc He k c'.
  destruct (idle_wall_clock c n Hc He) as (H1 & H2 & H3).
  fold k in H1, H2, H3. fold c' in H1, H2, H3.
  assert (Hk : 0 < k).
  { destruct Hc as [_ Hc0]. rewrite He in Hc0. destruct Hc0 as (Ht & _).
    apply ticking_spec in Ht. exact (proj2 Ht). }
  assert (Hq : 0 <= Z.of_nat n / 1000) by (apply Z.div_pos; lia).
  split; [rewrite H1; lia|].
  intros Hn. apply Z.ltb_lt in Hn as Hb. rewrite Hb in H2, H3.
  split; [exact H2|]. split; [|exact H3].
  assert (Z.of_nat n / 1000 < k) by (apply Z.div_lt_upper_bound; lia).
  rewrite H1. lia.
Qed.

Lemma countdown_not_ahead_of_clock_witness :
  let c := idle (Z.to_nat 40501) (Scenario.started 7) in
  260 <= timeLeft (state c) <= 300 /\ status (state c) = RUNNING /\
  map timestamp (messages (state c)) = [7].
Proof.
  intros c.
  assert (Hc : coherent (Scenario.started 7))
    by (unfold coherent; vm_compute; repeat split; discriminate).
  destruct (countdown_not_ahead_of_clock (Scenario.started 7) (Z.to_nat 40501) Hc
              ltac:(vm_compute; reflexivity)) as (H1 & H2).
  fold c in H1, H2.
  destruct (H2 ltac:(vm_compute; reflexivity)) as (Hs & _ & Hm).
  split; [exact H1|]. split; [exact Hs|]. rewrite Hm. reflexivity.
Defined.

End WallClock.

Section Display.
Import App.

(** X9.  Presses of the button never change [timeLeft]; after at least
    one press the status is [RUNNING] or [PAUSED]; and from [RUNNING] an
    even number of presses gives [RUNNING], an odd number [PAUSED]. *)
Theorem toggles_alternate :
  forall (nows : list Z) (s : State),
    let s' := run (map do_toggle nows) s in
    timeLeft s' = timeLeft s /\
    (nows <> [] -> status s' = RUNNING \/ status s' = PAUSED) /\
    (status s = RUNNING ->
     status s' = if Nat.even (List.length nows) then RUNNING else PAUSED).
Proof.
  intros nows. induction nows as [|now nows IH] using rev_ind; intros s s'.
  - subst s'. cbn. split; [reflexivity|]. split; [congruence | tauto].
  - subst s'. rewrite map_app. cbn [map]. rewrite run_snoc.
    destruct (IH s) as (Ht & _ & Hs). cbn [apply].
    rewrite length_app. cbn [List.length].
    replace (List.length nows + 1)%nat with (S (List.length nows)) by lia.
    rewrite Nat.even_succ, <- Nat.negb_even.
    unfold toggleTimer.
    destruct (TimerStatus_eqb (status (run (map do_toggle nows) s)) RUNNING) eqn:E;
      cbn [timeLeft status].
    + split; [exact Ht|]. split; [tauto|].
      intros Hrun. specialize (Hs Hrun). apply TimerStatus_eqb_eq in E.
      destruct (Nat.even (List.length nows)); [reflexivity | congruence].
    + split; [exact Ht|]. split; [tauto|].
      intros Hrun. specialize (Hs Hrun).
      destruct (Nat.even (List.length nows)); [|reflexivity].
      rewrite Hs in E. discriminate.
Qed.

Lemma toggles_alternate_witness :
  status (run (map do_toggle [1; 2; 3]) (mkState 120 RUNNING [])) = PAUSED.
Proof.
  apply (toggles_alternate [1; 2; 3] (mkState 120 RUNNING [])). reflexivity.
Defined.

(** X10.  In every state the component reaches, the test
    [timeLeft < 600] of the flicker style holds: the digits flicker
    exactly when the timer is [RUNNING]. *)
Theorem flicker_whenever_running :
  forall (events : list Event) (now : Z),
    let s := state (play events (mount now)) in
    flicker s = isRunning s.
Proof.
  intros events now s. unfold flicker, isRunning.
  pose proof (play_bounds events now) as Hb. fold s in Hb.
  replace (timeLeft s <? 600) with true by (symmetry; apply Z.ltb_lt; lia).
  reflexivity.
Qed.

Lemma two_digits_table :
  forallb (fun a =>
             (String.length (JS.padStart0 2 (JS.Z_toString (Z.of_nat a))) =? 2)%nat
             && forallb (fun b =>
                           implb (String.eqb (JS.padStart0 2 (JS.Z_toString (Z.of_nat a)))
                                             (JS.padStart0 2 (JS.Z_toString (Z.of_nat b))))
                                 (a =? b)%nat)
                        (seq 0 100))
          (seq 0 100) = true.
Proof. vm_compute. reflexivity. Qed.

(** Numbers below 100 are padded to two characters, different numbers to
    different strings. *)
Lemma two_digits (a b : Z) :
  0 <= a < 100 -> 0 <= b < 100 ->
  String.length (JS.padStart0 2 (JS.Z_toString a)) = 2%nat /\
  (JS.padStart0 2 (JS.Z_toString a) = JS.padStart0 2 (JS.Z_toString b) -> a = b).
Proof.
  intros Ha Hb. pose proof two_digits_table as H.
  rewrite forallb_forall in H.
  specialize (H (Z.to_nat a)). rewrite Z2Nat.id in H by lia.
  destruct (andb_prop _ _ (H ltac:(apply in_seq; lia))) as [Hlen Hinj].
  split; [apply Nat.eqb_eq, Hlen|].
  intros Heq. rewrite forallb_forall in Hinj.
  specialize (Hinj (Z.to_nat b) ltac:(apply in_seq; lia)).
  rewrite Z2Nat.id in Hinj by lia. rewrite Heq, String.eqb_refl in Hinj.
  cbn [implb] in Hinj. apply Nat.eqb_eq in Hinj. lia.
Qed.

Lemma append_split (s1 s2 t1 t2 : string) :
  String.length s1 = String.length s2 ->
  s1 ++ t1 = s2 ++ t2 -> s1 = s2 /\ t1 = t2.
Proof.
  revert s2. induction s1 as [|c s1 IH]; intros [|d s2] Hlen Heq;
    try discriminate Hlen.
  - split; [reflexivity | exact Heq].
  - cbn in Heq, Hlen. injection Heq as -> Heq. injection Hlen as Hlen.
    destruct (IH s2 Hlen Heq) as [-> ->]. split; reflexivity.
Qed.

Lemma substring_separator (c1 c2 : ascii) (t : string) :
  substring 2 1 (String c1 (String c2 EmptyString) ++ ":" ++ t) = ":".
Proof. cbn. destruct t; reflexivity. Qed.

(** X11.  For times below 100 minutes [formatTime] yields five
    characters with a colon in the middle, and different times yield
    different strings. *)
Theorem formatTime_mm_ss :
  forall a b : Z,
    0 <= a < 6000 -> 0 <= b < 6000 ->
    String.length (formatTime a) = 5%nat /\
    substring 2 1 (formatTime a) = ":" /\
    (formatTime a = formatTime b -> a = b).
Proof.
  intros a b Ha Hb. unfold formatTime.
  assert (Hrem : forall v, 0 <= v -> Z.rem v 60 = v mod 60)
    by (intros v Hv; apply Z.rem_mod_nonneg; lia).
  rewrite !Hrem by lia.
  assert (Hma : 0 <= a / 60 < 100)
    by (split; [apply Z.div_pos; lia | apply Z.div_lt_upper_bound; lia]).
  assert (Hmb : 0 <= b / 60 < 100)
    by (split; [apply Z.div_pos; lia | apply Z.div_lt_upper_bound; lia]).
  assert (Hsa : 0 <= a mod 60 < 100)
    by (pose proof (Z.mod_pos_bound a 60 ltac:(lia)); lia).
  assert (Hsb : 0 <= b mod 60 < 100)
    by (pose proof (Z.mod_pos_bound b 60 ltac:(lia)); lia).
  destruct (two_digits (a / 60) (b / 60) Hma Hmb) as [Lm Im].
  destruct (two_digits (a mod 60) (b mod 60) Hsa Hsb) as [Ls Is].
  destruct (two_digits (b / 60) (b / 60) Hmb Hmb) as [Lmb _].
  set (ma := JS.padStart0 2 (JS.Z_toString (a / 60))) in *.
  set (sa := JS.padStart0 2 (JS.Z_toString (a mod 60))) in *.
  set (mb := JS.padStart0 2 (JS.Z_toString (b / 60))) in *.
  set (sb := JS.padStart0 2 (JS.Z_toString (b mod 60))) in *.
  split; [|split].
  - rewrite !length_append, Lm, Ls. reflexivity.
  - destruct ma as [|c1 [|c2 [|c3 rest]]]; try discriminate Lm.
    apply substring_separator.
  - intros Heq.
    destruct (append_split ma mb _ _ ltac:(congruence) Heq) as [Hm Hrest].
    cbn in Hrest. injection Hrest as Hs.
    specialize (Im Hm). specialize (Is Hs).
    rewrite (Z.div_mod a 60), (Z.div_mod b 60) by lia. lia.
Qed.

Lemma formatTime_mm_ss_witness :
  formatTime 300 = "05:00" /\ formatTime 59 = "00:59" /\
  String.length (formatTime 300) = 5%nat.
Proof.
  split; [vm_compute; reflexivity|]. split; [vm_compute; reflexivity|].
  apply (formatTime_mm_ss 300 59); lia.
Defined.

Lemma systemLoad_thirds (timeLeft : Z) :
  (systemLoad timeLeft == inject_Z timeLeft * (1 # 3))%Q.
Proof.
  unfold systemLoad, INITIAL_TIME. change (inject_Z (5 * 60)) with 300%Q.
  field.
Qed.

(** X12.  For [timeLeft] between 0 and 300 the efficiency figure is
    [(2 * timeLeft + 3) / 6] rounded down; it lies between 0 and 100, does
    not decrease with [timeLeft], is 100 at 300 and 0 at 0. *)
Theorem vectorEfficiency_range :
  forall a b : Z,
    0 <= a <= b -> b <= 300 ->
    0 <= vectorEfficiency a <= vectorEfficiency b /\
    vectorEfficiency b <= 100 /\
    vectorEfficiency a = (2 * a + 3) / 6 /\
    vectorEfficiency 300 = 100 /\ vectorEfficiency 0 = 0.
Proof.
  intros a b Hab Hb.
  assert (Hform : forall v, vectorEfficiency v = (2 * v + 3) / 6).
  { intros v. unfold vectorEfficiency, JS.Math_round.
    rewrite (Qfloor_comp _ (inject_Z (2 * v + 3) / inject_Z 6)).
    - symmetry. apply Zdiv_Qdiv.
    - rewrite systemLoad_thirds, inject_Z_plus, inject_Z_mult. field. }
  rewrite !Hform.
  split; [split|split; [|split; [reflexivity | split; reflexivity]]].
  - apply Z.div_pos; lia.
  - apply Z.div_le_mono; lia.
  - assert ((2 * b + 3) / 6 < 101) by (apply Z.div_lt_upper_bound; lia). lia.
Qed.

Lemma vectorEfficiency_range_witness :
  vectorEfficiency 1 = 0 /\ vectorEfficiency 299 = 100 /\
  0 <= vectorEfficiency 150 <= vectorEfficiency 151.
Proof.
  split; [vm_compute; reflexivity|]. split; [vm_compute; reflexivity|].
  apply (vectorEfficiency_range 150 151); lia.
Defined.

Open Scope Q_scope.

(** X13.  For a pointer inside a window of positive size, both
    coordinates of [mousePos] lie between -30 and 30, the two rotations of
    the console between -6 and 6 degrees and the coordinates shown between
    -30 and 30; a pointer in the middle gives 0. *)
Theorem handleMouseMove_range :
  forall clientX clientY innerWidth innerHeight : Q,
    0 < innerWidth -> 0 < innerHeight ->
    0 <= clientX <= innerWidth -> 0 <= clientY <= innerHeight ->
    let p := handleMouseMove clientX clientY innerWidth innerHeight in
    (-30 <= x p <= 30 /\ -30 <= y p <= 30) /\
    (-6 <= fst (consoleRotation p) <= 6 /\ -6 <= snd (consoleRotation p) <= 6) /\
    (-30 <= fst (shownCoordinates p) <= 30 /\
     -30 <= snd (shownCoordinates p) <= 30)%Z /\
    (clientX == innerWidth / 2 -> x p == 0).
Proof.
  intros cx cy w h Hw Hh Hx Hy p.
  assert (Hrx : 0 <= cx / w <= 1).
  { split; [apply Qle_shift_div_l; [exact Hw | lra]
           | apply Qle_shift_div_r; [exact Hw | lra]]. }
  assert (Hry : 0 <= cy / h <= 1).
  { split; [apply Qle_shift_div_l; [exact Hh | lra]
           | apply Qle_shift_div_r; [exact Hh | lra]]. }
  subst p. unfold handleMouseMove, consoleRotation, shownCoordinates.
  cbn [x y fst snd].
  set (rx := cx / w) in *. set (ry := cy / h) in *.
  assert (Hround : forall v : Q, -30 <= v <= 30 ->
                                 (-30 <= JS.Math_round v <= 30)%Z).
  { intros v Hv. unfold JS.Math_round. split.
    - change (-30)%Z with (Qfloor (inject_Z (-30))).
      apply Qfloor_resp_le. change (inject_Z (-30)) with (-30). lra.
    - change 30%Z with (Qfloor (30 + (1 # 2))).
      apply Qfloor_resp_le. lra. }
  split; [split; lra|]. split; [split; lra|].
  split; [split; apply Hround; lra|].
  intros Hmid. subst rx. rewrite Hmid. field. lra.
Qed.

Lemma handleMouseMove_range_witness :
  x (handleMouseMove 1920 0 1920 1080) == 30 /\
  y (handleMouseMove 1920 0 1920 1080) == -30 /\
  (-30 <= fst (shownCoordinates (handleMouseMove 1920 0 1920 1080)) <= 30)%Z.
Proof.
  split; [vm_compute; reflexivity|]. split; [vm_compute; reflexivity|].
  apply (handleMouseMove_range 1920 0 1920 1080);
    try (vm_compute; reflexivity); split; vm_compute; discriminate.
Defined.

(** X14.  For a body with a positive period, [orbitsCompleted] doubles
    when the elapsed time doubles, gives exactly one orbit for one
    period, is not negative for a time that is not, and never decreases
    when the elapsed time grows.  In binary64, for every body of the
    table and every whole second of the countdown, the doubling and the
    one orbit hold to the last bit. *)
Theorem orbitsCompleted_period :
  (forall (body : CelestialBody) (elapsed elapsed' : Q),
      0 < orbitalPeriodHours body ->
      orbitsCompleted body (2 * elapsed) == 2 * orbitsCompleted body elapsed /\
      orbitsCompleted body (orbitalPeriodHours body * 3600) == 1 /\
      (0 <= elapsed -> 0 <= orbitsCompleted body elapsed) /\
      (elapsed <= elapsed' ->
       orbitsCompleted body elapsed <= orbitsCompleted body elapsed')) /\
  (forall (body : CelestialBody) (n : Z),
      In body CELESTIAL_BODIES -> (0 <= n <= INITIAL_TIME)%Z ->
      Binary64.orbitsCompleted body (Binary64.of_Z (2 * n)) =
        PrimFloat.mul PrimFloat.two
                      (Binary64.orbitsCompleted body (Binary64.of_Z n)) /\
      Binary64.orbitsCompleted body
        (PrimFloat.mul (Binary64.period body) (Binary64.number 3600)) =
        PrimFloat.one).
Proof.
  split.
  - intros body e e' Hp. unfold orbitsCompleted.
    assert (Hne : ~ orbitalPeriodHours body == 0) by lra.
    assert (Hd : 0 < orbitalPeriodHours body * 3600) by lra.
    split; [field; exact Hne|]. split; [field; exact Hne|]. split.
    + intros He. apply Qle_shift_div_l; lra.
    + intros He. unfold Qdiv. apply Qmult_le_compat_r; [exact He|].
      apply Qinv_le_0_compat. lra.
  - intros body n Hb Hn.
    assert (Hall :
      forallb (fun b =>
        forallb (fun k =>
          PrimFloat.Leibniz.eqb
            (Binary64.orbitsCompleted b (Binary64.of_Z (2 * Z.of_nat k)))
            (PrimFloat.mul PrimFloat.two
               (Binary64.orbitsCompleted b (Binary64.of_Z (Z.of_nat k))))
          && PrimFloat.Leibniz.eqb
               (Binary64.orbitsCompleted b
                  (PrimFloat.mul (Binary64.period b) (Binary64.number 3600)))
               PrimFloat.one)
          (seq 0 301)) CELESTIAL_BODIES = true)
      by (vm_compute; reflexivity).
    rewrite forallb_forall in Hall. specialize (Hall body Hb).
    rewrite forallb_forall in Hall.
    specialize (Hall (Z.to_nat n)).
    rewrite Z2Nat.id in Hall by lia.
    assert (Hin : In (Z.to_nat n) (seq 0 301)).
    { apply in_seq. change INITIAL_TIME with 300%Z in Hn. lia. }
    apply Hall in Hin. apply andb_prop in Hin. destruct Hin as [H1 H2].
    split; apply FloatAxioms.Leibniz.eqb_spec; assumption.
Qed.

End Display.

Section FetcherCalls.
Import GenAI GeminiService.

(** X15.  With a credential, [getRoboticStatus] makes exactly one call,
    to the model [gemini-3-flash-preview] with at most 60 output tokens
    and temperature 0.8; when the answer carries a text that is not
    empty, that text is what it returns, and nothing is logged. *)
Theorem getRoboticStatus_calls_once :
  forall (env : Env) (timeLeft : Z),
    truthy (API_KEY env) = true ->
    exists request,
      filter is_network_call (snd (getRoboticStatus env timeLeft)) =
        [network_call request] /\
      model request = "gemini-3-flash-preview" /\
      maxOutputTokens request = 60 /\
      temperature request = 0.8%Q /\
      (forall txt,
          generateContent env request = JS.Fulfilled (mkResponse (Some txt)) ->
          txt <> EmptyString ->
          getRoboticStatus env timeLeft =
            (JS.Fulfilled txt, [network_call request])).
Proof.
  intros env timeLeft Hkey. unfold getRoboticStatus. rewrite Hkey.
  cbn [negb NASA_SPACECRAFT].
  match goal with |- context [generateContent env ?r] => exists r end.
  split; [|split; [reflexivity | split; [reflexivity | split; [reflexivity|]]]].
  - destruct (generateContent env _); reflexivity.
  - intros txt Hres Hne. rewrite Hres. cbn [response_text or_else].
    destruct txt as [|ch rest]; [congruence | reflexivity].
Qed.

Lemma getRoboticStatus_calls_once_witness :
  exists request,
    filter is_network_call
           (snd (getRoboticStatus Scenario.failing_service 125)) =
      [network_call request] /\
    maxOutputTokens request = 60.
Proof.
  destruct (getRoboticStatus_calls_once Scenario.failing_service 125 eq_refl)
    as (request & H1 & _ & H3 & _).
  exists request. split; [exact H1 | exact H3].
Defined.

(** X19.  The older copy of the service has no credential test of its
    own.  When the constructor at module scope throws, the module exports
    nothing.  When it returns a client, [getRoboticStatus] makes the call
    to [gemini-3-flash-preview], with or without a credential, before
    anything else, and its promise is fulfilled: with
    ["Offline protocol engaged."] when the call fails. *)
Theorem legacy_never_short_circuits :
  forall (construct : option string -> JS.Settled unit) (env : Env) (timeLeft : Z),
    (forall error,
        construct (API_KEY env) = JS.Rejected error ->
        LegacyGeminiService.getRoboticStatus construct env timeLeft = None) /\
    (forall client,
        construct (API_KEY env) = JS.Fulfilled client ->
        exists request rest s,
          LegacyGeminiService.getRoboticStatus construct env timeLeft =
            Some (JS.Fulfilled s, network_call request :: rest) /\
          model request = "gemini-3-flash-preview" /\
          (forall error,
              generateContent env request = JS.Rejected error ->
              s = "Offline protocol engaged.")).
Proof.
  intros construct env timeLeft.
  unfold LegacyGeminiService.getRoboticStatus, LegacyGeminiService.ai.
  split.
  - intros error ->. reflexivity.
  - intros client ->.
    match goal with |- context [generateContent env ?r] =>
      exists r; destruct (generateContent env r) as [response|error] eqn:E end.
    + do 2 eexists. split; [reflexivity|]. split; [reflexivity|].
      intros error H. discriminate H.
    + do 2 eexists. split; [reflexivity|]. split; [reflexivity|].
      intros error' _. reflexivity.
Qed.

End FetcherCalls.

Section AnimatorRuns.
Import ThreeScene.
Open Scope Q_scope.

Variable Math_sin : Q -> Q.
Variable bodies : list CelestialBody.

Lemma frames_cons (flag : bool) (flags : list bool) (s : Scene) :
  frames Math_sin bodies (flag :: flags) s =
  frames Math_sin bodies flags (animate Math_sin bodies flag s).
Proof. reflexivity. Qed.

Lemma frames_snoc (flags : list bool) (flag : bool) (s : Scene) :
  frames Math_sin bodies (flags ++ [flag]) s =
  animate Math_sin bodies flag (frames Math_sin bodies flags s).
Proof. unfold frames. rewrite fold_left_app. reflexivity. Qed.

Lemma frameDelta_bounds (flag : bool) :
  0.0008 <= frameDelta flag <= 0.004.
Proof. destruct flag; split; vm_compute; discriminate. Qed.

Lemma frameCount_snoc (flags : list bool) (flag : bool) :
  frameCount (flags ++ [flag]) == frameCount flags + 1.
Proof.
  unfold frameCount. rewrite length_app. cbn [List.length].
  rewrite Nat2Z.inj_add, inject_Z_plus. reflexivity.
Qed.

(** The accumulator never goes back. *)
Lemma frames_clock (flags : list bool) (s : Scene) :
  0.0008 * frameCount flags
    <= t (frames Math_sin bodies flags s) - t s
    <= 0.004 * frameCount flags.
Proof.
  induction flags as [|flag flags IH] using rev_ind.
  - unfold frames, frameCount. cbn [fold_left List.length].
    change (inject_Z (Z.of_nat 0)) with 0. lra.
  - rewrite frames_snoc, frameCount_snoc.
    pose proof (frameDelta_bounds flag) as Hd.
    unfold animate. cbn [t]. lra.
Qed.

Lemma speed_antitone (bi bj : CelestialBody) :
  0 < orbitalPeriodHours bi -> orbitalPeriodHours bi <= orbitalPeriodHours bj ->
  0 <= speed bj <= speed bi.
Proof.
  intros Hi Hij. unfold speed, ORBITAL_SPEED_SCALE.
  assert (Hj : 0 < orbitalPeriodHours bj) by lra.
  assert (Hinv : / orbitalPeriodHours bj <= / orbitalPeriodHours bi).
  { apply Qle_shift_inv_r; [exact Hj|].
    rewrite Qmult_comm. apply Qle_shift_div_l; [exact Hi | lra]. }
  assert (H0 : 0 <= / orbitalPeriodHours bj)
    by (apply Qinv_le_0_compat; lra).
  unfold Qdiv. lra.
Qed.

(** X17.  Over any run of frames no angle decreases, and a body whose
    period is positive and not longer than that of another gains at
    least as much angle as the other. *)
Theorem shorter_period_revolves_faster :
  forall (s : Scene) (flags : list bool) (i j : nat) (bi bj : CelestialBody),
    List.length (orbitPivots s) = List.length bodies ->
    nth_error bodies i = Some bi ->
    nth_error bodies j = Some bj ->
    0 < orbitalPeriodHours bi ->
    orbitalPeriodHours bi <= orbitalPeriodHours bj ->
    let s' := frames Math_sin bodies flags s in
    0 <= angle j s' - angle j s <= angle i s' - angle i s.
Proof.
  intros s flags i j bi bj Hlen Hbi Hbj Hpos Hle s'.
  assert (Hi : (i < List.length (orbitPivots s))%nat)
    by (rewrite Hlen; apply nth_error_Some; congruence).
  assert (Hj : (j < List.length (orbitPivots s))%nat)
    by (rewrite Hlen; apply nth_error_Some; congruence).
  pose proof (frames_angle Math_sin bodies flags s i bi Hbi Hi) as Fi.
  pose proof (frames_angle Math_sin bodies flags s j bj Hbj Hj) as Fj.
  fold s' in Fi, Fj. rewrite Fi, Fj.
  destruct (frames_clock flags s) as (Hlo & _). fold s' in Hlo.
  assert (HT : 0 <= t s' - t s).
  { assert (0 <= frameCount flags)
      by (unfold frameCount; change 0 with (inject_Z 0);
          rewrite <- Zle_Qle; lia).
    lra. }
  destruct (speed_antitone bi bj Hpos Hle) as [H0 H1].
  split.
  - apply Qmult_le_0_compat; assumption.
  - apply Qmult_le_compat_r; assumption.
Qed.

End AnimatorRuns.

Lemma shorter_period_revolves_faster_witness :
  let s := ThreeScene.built CELESTIAL_BODIES in
  let s' := ThreeScene.frames (fun _ => 0%Q) CELESTIAL_BODIES [true; false; true] s in
  (0 <= ThreeScene.angle 5 s' - ThreeScene.angle 5 s
     <= ThreeScene.angle 0 s' - ThreeScene.angle 0 s)%Q.
Proof.
  intros s s'.
  apply (shorter_period_revolves_faster (fun _ => 0%Q) CELESTIAL_BODIES s
           [true; false; true] 0%nat 5%nat
           (nth 0 CELESTIAL_BODIES Scenario.nobody)
           (nth 5 CELESTIAL_BODIES Scenario.nobody)
           eq_refl eq_refl eq_refl).
  - vm_compute. reflexivity.
  - vm_compute. discriminate.
Defined.

Section AnimatorFlags.
Import Floats Binary64.

Variable Math_sin Math_sin' : float -> float.
Variable bodies : list CelestialBody.





End AnimatorFlags.


Section Transitions.
Import App.

(** X18.  What an event does to the timer of a component reached from
    its mount: nothing; or it is a reset, which gives [IDLE] with 300
    seconds; or a press of the button, which pauses a [RUNNING] timer and
    sets any other [RUNNING], [timeLeft] unchanged; or the millisecond
    that ends a second of a [RUNNING] timer, which takes one second off
    and, when that was the last one, gives [COMPLETED]. *)
Theorem event_effects :
  forall (events : list Event) (now : Z) (e : Event),
    let c := play events (mount now) in
    let s := state c in
    let s' := state (handle e c) in
    (status s' = status s /\ timeLeft s' = timeLeft s) \/
    (e = click_reset /\ status s' = IDLE /\ timeLeft s' = 300) \/
    (e = click_toggle /\ status s = RUNNING /\ status s' = PAUSED /\
     timeLeft s' = timeLeft s) \/
    (e = click_toggle /\ status s <> RUNNING /\ status s' = RUNNING /\
     timeLeft s' = timeLeft s) \/
    (e = ms /\ timerRef c = Some 999 /\ status s = RUNNING /\
     1 < timeLeft s /\ status s' = RUNNING /\ timeLeft s' = timeLeft s - 1) \/
    (e = ms /\ timerRef c = Some 999 /\ status s = RUNNING /\
     timeLeft s = 1 /\ status s' = COMPLETED /\ timeLeft s' = 0).
Proof.
  intros events now e c s s'.
  pose proof (play_coherent events now) as Hc. fold c in Hc.
  destruct e.
  - subst s'. destruct (toggle_fields c) as (Hs & _). rewrite Hs. fold s.
    unfold toggleTimer.
    destruct (TimerStatus_eqb (status s) RUNNING) eqn:E; cbn [status timeLeft].
    + apply TimerStatus_eqb_eq in E. right; right; left. tauto.
    + right; right; right; left. repeat split; try reflexivity.
      intros H. rewrite H in E. discriminate.
  - subst s'. cbn [handle].
    destruct (update_fields (resetTimer (clock c)) c) as (Hs & _). rewrite Hs.
    right; left. repeat split.
  - subst s'. cbn [handle]. destruct (timerRef c) as [t0|] eqn:He.
    + rewrite (elapse_live c t0 Hc He).
      destruct Hc as [_ Hc]. rewrite He in Hc. destruct Hc as (Ht & Hr & _).
      apply ticking_spec in Ht. destruct Ht as [Hrun Hpos]. fold s in Hrun, Hpos.
      destruct (t0 + 1 =? 1000) eqn:E; cbn [state]; [|left; split; reflexivity].
      apply Z.eqb_eq in E. assert (t0 = 999) by lia. subst t0.
      fold s. unfold onTick.
      destruct (timeLeft s <=? 1) eqn:Hle; cbn [status timeLeft].
      * apply Z.leb_le in Hle. right; right; right; right; right.
        repeat split; try assumption; lia.
      * apply Z.leb_gt in Hle. right; right; right; right; left.
        repeat split; try assumption; lia.
    + destruct (idle_stopped 1 c He) as [Hs _].
      change (idle 1 c) with (elapse c) in Hs. rewrite Hs. left. split; reflexivity.
  - subst s'. cbn [handle].
    destruct (settle_state i env c) as [H|[msg H]]; rewrite H;
      left; split; reflexivity.
Qed.

End Transitions.
